(** * SME-UnB data reader: Modbus RTU codec and UDP transport

    A shallow embedding of [src/data_reader/models.py]: the classes
    [ModbusRTU] (request framing, CRC16, response decoding) and
    [UdpProtocol] (send/receive pass, bounded retry loop), followed by the
    properties of the specification that concern them. *)

From Stdlib Require Import ZArith List Lia Bool String QArith.
From Stdlib Require Import Strings.Byte.
From stdpp Require Import base list.

Local Open Scope Z_scope.

Abbreviation bytes := (list byte).

(** ** The fragment of the Python runtime the module relies on *)

Module Py.

(** Exceptions that the code raises or lets escape. *)
Inductive exn : Type :=
| struct_error
| IndexError
| UnboundLocalError
| socket_timeout
| socket_error
| RegisterAddressException (message : string)
| BrokenTransductorException (message : string).

(** Outcome of evaluating a piece of code: a value or a raised exception. *)
Inductive result (A : Type) : Type :=
| Return (a : A)
| Raise (e : exn).
Arguments Return {A} a.
Arguments Raise {A} e.

#[export] Instance result_ret : MRet result := fun A a => Return a.
#[export] Instance result_bind : MBind result := fun A B f m =>
  match m with
  | Return a => f a
  | Raise e => Raise e
  end.

(** [sys.byteorder] *)
Inductive byteorder : Type := little | big.

Definition Z_of_byte (b : byte) : Z := Z.of_N (Byte.to_N b).
Arguments Z_of_byte : simpl nomatch.

Definition byte_of_Z (z : Z) : byte :=
  match Byte.of_N (Z.to_N (z mod 256)) with
  | Some b => b
  | None => x00
  end.

(** Unsigned value of a byte string read least significant byte first,
    respectively most significant byte first. *)
Definition le_word (bs : bytes) : Z :=
  fold_right (fun b acc => Z_of_byte b + 256 * acc) 0 bs.

Definition be_word (bs : bytes) : Z :=
  fold_left (fun acc b => 256 * acc + Z_of_byte b) bs 0.

(** [l[i]]: negative indices count from the end, anything outside the
    sequence raises [IndexError]. *)
Definition index (n i : Z) : option nat :=
  let j := if i <? 0 then i + n else i in
  if (0 <=? j) && (j <? n) then Some (Z.to_nat j) else None.

Definition getitem {A} (l : list A) (i : Z) : result A :=
  match index (Z.of_nat (length l)) i with
  | Some j =>
      match l !! j with
      | Some x => Return x
      | None => Raise IndexError
      end
  | None => Raise IndexError
  end.

(** [l[i] = x] on a [bytearray]. *)
Definition setitem {A} (l : list A) (i : Z) (x : A) : result (list A) :=
  match index (Z.of_nat (length l)) i with
  | Some j => Return (<[j := x]> l)
  | None => Raise IndexError
  end.

(** [l[start:stop]] *)
Definition slice {A} (l : list A) (start stop : Z) : list A :=
  let n := Z.of_nat (length l) in
  let clamp i := Z.max 0 (Z.min n (if i <? 0 then i + n else i)) in
  take (Z.to_nat (clamp stop - clamp start)) (drop (Z.to_nat (clamp start)) l).

(** [range(start, stop, step)] for a positive [step]. *)
Definition range (start stop step : Z) : list Z :=
  map (fun k => start + step * Z.of_nat k)
      (seq 0 (Z.to_nat ((stop - start + step - 1) / step))).

(** [for x in xs: body], the loop body acting on the local variables [s]. *)
Fixpoint for_in {A S} (xs : list A) (body : A -> S -> result S) (s : S)
  : result S :=
  match xs with
  | [] => Return s
  | x :: xs' => s' ← body x s; for_in xs' body s'
  end.

(** *** [struct] *)

Definition in_range (lo hi v : Z) : bool := (lo <=? v) && (v <=? hi).

(** [struct.pack("2B", a, b)] *)
Definition pack_2B (a b : Z) : result bytes :=
  if in_range 0 255 a && in_range 0 255 b
  then Return [byte_of_Z a; byte_of_Z b]
  else Raise struct_error.

(** [struct.pack(">2H", a, b)] *)
Definition pack_be_2H (a b : Z) : result bytes :=
  if in_range 0 65535 a && in_range 0 65535 b
  then Return [byte_of_Z (Z.shiftr a 8); byte_of_Z (Z.land a 255);
               byte_of_Z (Z.shiftr b 8); byte_of_Z (Z.land b 255)]
  else Raise struct_error.

(** [struct.pack("<H", a)] *)
Definition pack_le_H (a : Z) : result bytes :=
  if in_range 0 65535 a
  then Return [byte_of_Z (Z.land a 255); byte_of_Z (Z.shiftr a 8)]
  else Raise struct_error.

(** [struct.unpack("1B", s)[0]] *)
Definition unpack_1B (s : bytes) : result Z :=
  match s with
  | [b] => Return (Z_of_byte b)
  | _ => Raise struct_error
  end.

Definition native_word (order : byteorder) (s : bytes) : Z :=
  match order with
  | little => le_word s
  | big => be_word s
  end.

Definition signed16 (w : Z) : Z := if w <? 32768 then w else w - 65536.

(** [struct.unpack("1h", s)[0]]: native byte order, signed 16 bits. *)
Definition unpack_1h (order : byteorder) (s : bytes) : result Z :=
  if (length s =? 2)%nat
  then Return (signed16 (native_word order s))
  else Raise struct_error.

(** The value of a Python float read from an IEEE-754 single precision
    number, kept as the 32-bit pattern of that number (sign, 8 exponent
    bits, 23 fraction bits from the top). *)
Record float32 : Type := Float32 { float32_bits : Z }.

(** Reading a single into the double of a Python float keeps every number
    and infinity as it is and makes a NaN quiet: when the exponent bits
    are all ones and the fraction is not zero, the top bit of the fraction
    (bit 22) comes out set. *)
Definition quiet_nan (w : Z) : Z :=
  if (Z.land (Z.shiftr w 23) 255 =? 255) && negb (Z.land w 0x7FFFFF =? 0)
  then Z.lor w 0x400000
  else w.

(** [struct.unpack("1f", s)[0]]: native byte order, 4 bytes. *)
Definition unpack_1f (order : byteorder) (s : bytes) : result float32 :=
  if (length s =? 4)%nat
  then Return (Float32 (quiet_nan (native_word order s)))
  else Raise struct_error.

End Py.
Import Py.

(** ** [class ModbusRTU(SerialProtocol)] *)

(** One entry of [transductor.model.register_addresses]: the pair
    [[address, type]], read in the code through the index constants
    [address_value = 0] and [address_type = 1]. *)
Record register : Type := Register {
  address_value : Z;
  address_type : Z
}.

Module ModbusRTU.

Definition int_addr : Z := 0.
Definition float_addr : Z := 1.

(** One turn of [for i in range(8)] in [_computate_crc]. *)
Definition crc_round (crc : Z) : Z :=
  let lsb := Z.land crc 1 in
  let crc := Z.shiftr crc 1 in
  if lsb =? 0 then crc else Z.lxor crc 0xA001.

(** One turn of the loop over the bytes of the message. *)
Definition crc_byte (crc : Z) (item : byte) : Z :=
  let next_byte := Z_of_byte item in
  let crc := Z.lxor crc next_byte in
  Nat.iter 8 crc_round crc.

Definition _computate_crc (packaged_message : bytes) : Z :=
  fold_left crc_byte packaged_message 0xFFFF.

Definition _check_crc (packaged_message : bytes) : bool :=
  _computate_crc packaged_message =? 0.

(** Body of [for register in registers] in [create_messages]. *)
Definition create_message (register : register) : result bytes :=
  packaged_message ←
    (if address_type register =? int_addr then
       header ← pack_2B 0x01 0x03;
       body ← pack_be_2H (address_value register) 1;
       mret (header ++ body)
     else if address_type register =? float_addr then
       header ← pack_2B 0x01 0x03;
       body ← pack_be_2H (address_value register) 2;
       mret (header ++ body)
     else
       Raise (RegisterAddressException "Wrong register address type."));
  crc ← pack_le_H (_computate_crc packaged_message);
  mret (packaged_message ++ crc).

Fixpoint create_messages_from (registers : list register)
    (messages_to_send : list bytes) : result (list bytes) :=
  match registers with
  | [] => Return messages_to_send
  | register :: registers' =>
      packaged_message ← create_message register;
      create_messages_from registers' (messages_to_send ++ [packaged_message])
  end.

Definition create_messages (registers : list register) : result (list bytes) :=
  create_messages_from registers [].

(** Both decoders read the byte count at offset 2 and work on a
    [bytearray] copy of [message_received_data[3:-2]]. *)
Definition get_int_value_from_response (sys_byteorder : byteorder)
    (message_received_data : bytes) : result Z :=
  c ← getitem message_received_data 2;
  n_bytes ← unpack_1B [c];
  let msg := slice message_received_data 3 (-2) in
  msg ← for_in (range 0 n_bytes 2) (fun i msg =>
    match sys_byteorder with
    | little =>
        msb ← getitem msg i;
        v ← getitem msg (i + 1);
        msg ← setitem msg i v;
        setitem msg (i + 1) msb
    | big => Return msg
    end) msg;
  unpack_1h sys_byteorder msg.

Definition get_float_value_from_response (sys_byteorder : byteorder)
    (message_received_data : bytes) : result float32 :=
  c ← getitem message_received_data 2;
  n_bytes ← unpack_1B [c];
  let msg := slice message_received_data 3 (-2) in
  msg ← for_in (range 0 n_bytes 4) (fun i msg =>
    match sys_byteorder with
    | little =>
        msb ← getitem msg i;
        v ← getitem msg (i + 1);
        msg ← setitem msg i v;
        msg ← setitem msg (i + 1) msb;
        msb ← getitem msg (i + 2);
        v ← getitem msg (i + 3);
        msg ← setitem msg (i + 2) v;
        setitem msg (i + 3) msb
    | big =>
        msb ← getitem msg i;
        lsb ← getitem msg (i + 1);
        v ← getitem msg (i + 2);
        msg ← setitem msg i v;
        v ← getitem msg (i + 3);
        msg ← setitem msg (i + 1) v;
        msg ← setitem msg (i + 2) msb;
        setitem msg (i + 3) lsb
    end) msg;
  unpack_1f sys_byteorder msg.

End ModbusRTU.

(** ** The transductor record read by both classes *)

Record transductor_model : Type := TransductorModel {
  register_addresses : list register
}.

Record transductor : Type := Transductor {
  model : transductor_model;
  ip_address : string;
  broken : bool
}.

(** ** [class UdpProtocol(TransportProtocol)] *)

Module UdpProtocol.

Abbreviation sockaddr := (string * Z)%type.

(** The two ways a socket call fails: [socket.timeout], and any other
    [socket.error]. *)
Inductive failure : Type := timeout | error.

Definition exn_of (f : failure) : exn :=
  match f with
  | timeout => socket_timeout
  | error => socket_error
  end.

(** What the outside world does with one request: [sendto] fails, or the
    datagram leaves and [recvfrom] fails, or a datagram comes back. *)
Inductive exchange : Type :=
| sendto_raises (f : failure)
| recvfrom_raises (f : failure)
| recvfrom_returns (datagram : bytes) (address : sockaddr).

(** [socket.socket(AF_INET, SOCK_DGRAM)] after [settimeout]. *)
Record socket_object : Type := Socket {
  gettimeout : option Q
}.

(** The attributes of a [UdpProtocol] instance. *)
Record self : Type := Self {
  the_transductor : transductor;
  timeout_ : Q;
  port : Z;
  socket : option socket_object;
  receive_attempts : Z;
  max_receive_attempts : Z
}.

(** [UdpProtocol(serial_protocol, timeout=10.0, port=1001)] *)
Definition __init__ (t : transductor) (timeout : Q) (port : Z) : self :=
  Self t timeout port None 0 3.

(** The wire: how many exchanges are over, and the datagrams that left,
    oldest first. *)
Record wire : Type := Wire {
  exchanges : nat;
  sent : list (bytes * sockaddr)
}.

(** What a method acts on: the instance and the wire. *)
Record state : Type := State {
  this : self;
  net : wire
}.

(** A method: from a state to a value or an exception, and a new state. *)
Definition M (A : Type) : Type := state -> result A * state.

#[export] Instance M_ret : MRet M := fun A a s => (Return a, s).
#[export] Instance M_bind : MBind M := fun A B f m s =>
  match m s with
  | (Return a, s') => f a s'
  | (Raise e, s') => (Raise e, s')
  end.

Definition raise {A} (e : exn) : M A := fun s => (Raise e, s).
Definition lift {A} (r : result A) : M A := fun s => (r, s).
Definition get : M self := fun s => (Return (this s), s).
Definition put (o : self) : M unit := fun s => (Return tt, State o (net s)).

Definition set_socket (o : self) (sock : option socket_object) : self :=
  Self (the_transductor o) (timeout_ o) (port o) sock
       (receive_attempts o) (max_receive_attempts o).

Definition set_receive_attempts (o : self) (n : Z) : self :=
  Self (the_transductor o) (timeout_ o) (port o) (socket o)
       n (max_receive_attempts o).

Definition tick (w : wire) : wire := Wire (S (exchanges w)) (sent w).
Definition leave (w : wire) (d : bytes * sockaddr) : wire :=
  Wire (exchanges w) (sent w ++ [d]).

Section Network.

(** The behaviour of the network and of the device: the outcome of
    the n-th exchange since the start. *)
Variable network : nat -> exchange.

(** [self.socket.sendto(message, address)], for a session that has a
    socket and whose port lies within 0..65535 (see [socket_usable]):
    what the call does then is up to the network.  Without a socket the
    Python call raises [AttributeError], and with a port outside that
    range [OverflowError], before anything is sent. *)
Definition sendto (message : bytes) (address : sockaddr) : M unit :=
  fun s =>
    match network (exchanges (net s)) with
    | sendto_raises f => (Raise (exn_of f), State (this s) (tick (net s)))
    | _ => (Return tt, State (this s) (leave (net s) (message, address)))
    end.

(** [self.socket.recvfrom(bufsize)]: at most [bufsize] bytes of the
    datagram are returned. *)
Definition recvfrom (bufsize : nat) : M (bytes * sockaddr) :=
  fun s =>
    let s' := State (this s) (tick (net s)) in
    match network (exchanges (net s)) with
    | recvfrom_returns datagram address =>
        (Return (take bufsize datagram, address), s')
    | recvfrom_raises f | sendto_raises f => (Raise (exn_of f), s')
    end.

(** [create_socket]: the socket is taken to be obtained, and
    [settimeout] to accept the timeout of the session, which it does for a
    timeout that is not negative (see [socket_obtainable]); for a negative
    one the Python call raises [ValueError] once the socket is stored. *)
Definition create_socket : M unit :=
  o ← get;
  put (set_socket o (Some (Socket (Some (timeout_ o))))).

Definition reset_receive_attempts : M unit :=
  o ← get;
  put (set_receive_attempts o 0).

(** The loop of [handle_messages_via_socket] over the requests still
    to send, with its two local variables: the list [messages] and
    [message_received], which is unbound ([None]) until the first
    [recvfrom] returns. *)
Fixpoint handle_messages_loop (messages_to_send : list bytes)
    (messages : list bytes) (message_received : option (bytes * sockaddr))
  : M (option (list bytes)) :=
  match messages_to_send with
  | [] => mret (Some messages)
  | message :: messages_to_send' =>
      fun s =>
        let append message_received :=
          match message_received with
          | Some r =>
              handle_messages_loop messages_to_send'
                (messages ++ [fst r]) message_received
          | None => raise UnboundLocalError
          end in
        let o := this s in
        match (sendto message (ip_address (the_transductor o), port o);;
               recvfrom 256) s with
        | (Return r, s') => append (Some r) s'
        | (Raise socket_timeout, s') => (Return None, s')
        | (Raise socket_error, s') => append message_received s'
        | (Raise e, s') => (Raise e, s')
        end
  end.

Definition handle_messages_via_socket (messages_to_send : list bytes)
  : M (option (list bytes)) :=
  handle_messages_loop messages_to_send [] None.

(** [not received_messages]: [None] and the empty list are false. *)
Definition not_ (received_messages : option (list bytes)) : bool :=
  match received_messages with
  | None | Some [] => true
  | Some (_ :: _) => false
  end.

(** The [while] loop of [manage_received_messages].  Each turn that
    does not leave the loop adds one to [receive_attempts], so
    [max_receive_attempts - receive_attempts] turns are enough; the
    loop is unfolded [fuel] times. *)
Fixpoint retry_loop (fuel : nat) (messages_to_send : list bytes)
    (received_messages : option (list bytes)) : M (option (list bytes)) :=
  fun s =>
    if not_ received_messages
       && (receive_attempts (this s) <? max_receive_attempts (this s))
    then
      match fuel with
      | O => (Return received_messages, s)
      | S fuel' =>
          (received_messages ← handle_messages_via_socket messages_to_send;
           (if not_ received_messages
            then o ← get; put (set_receive_attempts o (receive_attempts o + 1))
            else mret tt);;
           retry_loop fuel' messages_to_send received_messages) s
      end
    else (Return received_messages, s).

Definition turns (o : self) : nat :=
  Z.to_nat (max_receive_attempts o - receive_attempts o).

(** [received_messages] starts as the empty list; the result is [None]
    when the last pass returned [None]. *)
Definition manage_received_messages (messages_to_send : list bytes)
  : M (option (list bytes)) :=
  reset_receive_attempts;;
  o ← get;
  received_messages ← retry_loop (turns o) messages_to_send (Some []);
  o ← get;
  if (receive_attempts o =? max_receive_attempts o)
     && negb (broken (the_transductor o))
  then raise (BrokenTransductorException "Transductor is broken!")
  else mret received_messages.

(** The [try: ... except BrokenTransductorException: raise] around the
    call of [manage_received_messages] re-raises what it catches. *)
Definition start_communication : M (option (list bytes)) :=
  o ← get;
  (if socket o is None then create_socket else mret tt);;
  o ← get;
  messages_to_send ←
    lift (ModbusRTU.create_messages
            (register_addresses (model (the_transductor o))));
  manage_received_messages messages_to_send.

End Network.

End UdpProtocol.

(** * Notions used in the statements *)

Section Notions.

Import ModbusRTU UdpProtocol.

(** The behaviour of the network and of the device, as in [UdpProtocol]. *)
Variable network : nat -> exchange.

(** ** Requests and responses *)

(** The descriptors the protocol accepts: type 0 (integer) or 1 (float),
    and an address that fits 16 bits. *)
Definition valid_type (r : register) : Prop :=
  address_type r = int_addr \/ address_type r = float_addr.

Definition valid_address (r : register) : Prop :=
  0 <= address_value r < 65536.

(** Number of 16-bit registers a descriptor asks for. *)
Definition quantity (r : register) : Z :=
  if address_type r =? int_addr then 1 else 2.

(** The six bytes before the CRC, then the whole request, as laid out on
    the wire. *)
Definition request_body (r : register) : bytes :=
  [x01; x03;
   byte_of_Z (Z.shiftr (address_value r) 8);
   byte_of_Z (Z.land (address_value r) 255);
   x00; byte_of_Z (quantity r)].

Definition request_frame (r : register) : bytes :=
  request_body r
  ++ [byte_of_Z (Z.land (_computate_crc (request_body r)) 255);
      byte_of_Z (Z.shiftr (_computate_crc (request_body r)) 8)].

(** A signed 16-bit value in wire order: high byte first, two's
    complement, as [struct.pack(">h", v)] writes it. *)
Definition int16_wire (v : Z) : bytes :=
  [byte_of_Z (Z.shiftr v 8); byte_of_Z (Z.land v 255)].

(** ** Passes and the retry loop *)

(** The destination of every datagram of a session. *)
Definition peer (s : state) : sockaddr :=
  (ip_address (the_transductor (this s)), port (this s)).

Definition timed_out (e : exchange) : bool :=
  match e with
  | sendto_raises timeout | recvfrom_raises timeout => true
  | _ => false
  end.

Definition replied (e : exchange) : bool :=
  match e with
  | recvfrom_returns _ _ => true
  | _ => false
  end.

(** What [recvfrom(256)] hands back for an exchange that has a reply. *)
Definition reply_of (e : exchange) : bytes :=
  match e with
  | recvfrom_returns datagram _ => take 256 datagram
  | _ => []
  end.

(** The datagrams that leave when [messages] are tried from exchange [n]
    on: all but those whose [sendto] fails. *)
Fixpoint pass_sent (n : nat) (messages : list bytes) (address : sockaddr)
  : list (bytes * sockaddr) :=
  match messages with
  | [] => []
  | message :: messages' =>
      match network n with
      | sendto_raises _ => []
      | _ => [(message, address)]
      end ++ pass_sent (S n) messages' address
  end.

(** The state after the try block of one turn. *)
Definition after_exchange (s : state) (message : bytes) : state :=
  match network (exchanges (net s)) with
  | sendto_raises _ => State (this s) (tick (net s))
  | _ => State (this s) (tick (leave (net s) (message, peer s)))
  end.

(** The local variable [message_received] after the try block. *)
Definition received (e : exchange) (message_received : option (bytes * sockaddr))
  : option (bytes * sockaddr) :=
  match e with
  | recvfrom_returns datagram address => Some (take 256 datagram, address)
  | _ => message_received
  end.

(** [self.receive_attempts += 1] *)
Definition bump (s : state) : state :=
  State (set_receive_attempts (this s) (receive_attempts (this s) + 1)) (net s).

(** The condition of the [while]. *)
Definition guard (received_messages : option (list bytes)) (s : state) : bool :=
  not_ received_messages
  && (receive_attempts (this s) <? max_receive_attempts (this s)).

(** All the attributes but [receive_attempts] are those of the start. *)
Definition same_session (o o' : self) : Prop :=
  set_receive_attempts o' 0 = set_receive_attempts o 0.

(** The state after [self.reset_receive_attempts()]. *)
Definition reset (s : state) : state :=
  State (set_receive_attempts (this s) 0) (net s).

(** [self.receive_attempts == self.max_receive_attempts] *)
Definition exhausted (s : state) : bool :=
  receive_attempts (this s) =? max_receive_attempts (this s).

(** [if self.socket is None: self.create_socket()] *)
Definition with_socket (s : state) : state :=
  match socket (this s) with
  | None => State (set_socket (this s) (Some (Socket (Some (timeout_ (this s))))))
                  (net s)
  | Some _ => s
  end.


(** The sessions on which [start_communication] gets past its first
    statement: there is a socket already, or [settimeout] accepts the
    timeout of the session. *)
Definition socket_obtainable (s : state) : Prop :=
  socket (this s) <> None \/ (0 <= timeout_ (this s))%Q.

(** A session just constructed, once its socket has been created. *)
Definition connected (t : transductor) : state :=
  State (Self t (inject_Z 10) 1001 (Some (Socket (Some (inject_Z 10)))) 0 3)
        (Wire 0 []).

(** The round of [_computate_crc] read backwards: bit 15 of the result
    tells whether 0xA001 was xor-ed in, that is, which bit was shifted out. *)
Definition crc_unround (crc : Z) : Z :=
  if Z.testbit crc 15 then 2 * Z.lxor crc 0xA001 + 1 else 2 * crc.


(** ** Concrete sessions and networks *)

(** A transductor with one integer register at address 0x10. *)
Definition device (is_broken : bool) : transductor :=
  Transductor (TransductorModel [Register 0x10 0]) "10.0.0.2" is_broken.

(** A session just constructed with the default timeout and port, on a
    quiet wire. *)
Definition fresh (t : transductor) : state :=
  State (__init__ t (inject_Z 10) 1001) (Wire 0 []).

Definition request_0x10 : bytes := [x01; x03; x00; x10; x00; x01; x85; xcf].
Definition reply_42 : bytes := [x01; x03; x02; x00; x2a; x39; x9b].

(** A device that never answers, and one that answers every request. *)
Definition silent : nat -> exchange := fun _ => recvfrom_raises timeout.
Definition answering : nat -> exchange :=
  fun _ => recvfrom_returns reply_42 ("10.0.0.2"%string, 1001).

(** The first exchange fails with a [socket.error] that is not a
    timeout; the others are answered. *)
Definition failing_first : nat -> exchange :=
  fun n => match n with
           | O => recvfrom_raises error
           | _ => answering n
           end.

Definition reply_7 : bytes := [x01; x03; x02; x00; x07; xf9; x86].

(** The first request is answered with 42, the second exchange fails in
    that way, the later requests are answered with 7. *)
Definition failing_second : nat -> exchange :=
  fun n => match n with
           | O => recvfrom_returns reply_42 ("10.0.0.2"%string, 1001)
           | 1%nat => recvfrom_raises error
           | _ => recvfrom_returns reply_7 ("10.0.0.2"%string, 1001)
           end.

(** The second exchange times out. *)
Definition late_second : nat -> exchange :=
  fun n => match n with
           | 1%nat => recvfrom_raises timeout
           | _ => answering n
           end.

(** A transductor whose second register has an unknown type. *)
Definition mistyped : transductor :=
  Transductor (TransductorModel [Register 0x10 0; Register 0x20 7; Register 0x30 1])
              "10.0.0.2" false.

End Notions.

(** * Properties *)

(** ** Bytes and 16-bit words *)

Section Words.

Lemma Z_of_byte_range (b : byte) : 0 <= Z_of_byte b < 256.
Proof.
  unfold Z_of_byte. pose proof (Byte.to_N_bounded b). lia.
Qed.

Lemma Z_of_byte_of_Z (z : Z) : Z_of_byte (byte_of_Z z) = z mod 256.
Proof.
  unfold Z_of_byte, byte_of_Z.
  pose proof (Z.mod_pos_bound z 256 eq_refl) as Hz.
  destruct (Byte.of_N (Z.to_N (z mod 256))) as [b|] eqn:Hb.
  - apply Byte.to_of_N in Hb. rewrite Hb. lia.
  - apply Byte.of_N_None_iff in Hb. lia.
Qed.

Lemma Z_of_byte_of_Z_small (z : Z) :
  0 <= z < 256 -> Z_of_byte (byte_of_Z z) = z.
Proof. intros Hz. rewrite Z_of_byte_of_Z. now apply Z.mod_small. Qed.

Lemma low_byte_range (a : Z) : 0 <= Z.land a 255 < 256.
Proof.
  change 255 with (Z.ones 8). rewrite Z.land_ones by lia.
  apply Z.mod_pos_bound. reflexivity.
Qed.

Lemma high_byte_range (a : Z) : 0 <= a < 65536 -> 0 <= Z.shiftr a 8 < 256.
Proof.
  intros Ha. rewrite Z.shiftr_div_pow2 by lia. change (2 ^ 8) with 256.
  split; [apply Z.div_pos; lia | apply Z.div_lt_upper_bound; lia].
Qed.

(** Exclusive or does not leave the words of [n] bits. *)
Lemma lxor_range (n a b : Z) :
  0 <= n -> 0 <= a < 2 ^ n -> 0 <= b < 2 ^ n -> 0 <= Z.lxor a b < 2 ^ n.
Proof.
  intros Hn Ha Hb.
  assert (Z.lxor a b = Z.land (Z.lxor a b) (Z.ones n)) as ->.
  { rewrite <- (Z.mod_small a (2 ^ n)), <- (Z.mod_small b (2 ^ n)) at 1
      by assumption.
    rewrite <- !Z.land_ones by assumption.
    apply Z.bits_inj'. intros i Hi.
    rewrite !Z.land_spec, !Z.lxor_spec, !Z.land_spec.
    now destruct (Z.testbit a i), (Z.testbit b i), (Z.testbit (Z.ones n) i). }
  rewrite Z.land_ones by assumption.
  apply Z.mod_pos_bound. apply Z.pow_pos_nonneg; lia.
Qed.

(** Removing the low byte of a word by exclusive or leaves the high byte
    in place. *)
Lemma lxor_low_byte (c : Z) :
  Z.lxor c (Z.land c 255) = Z.shiftl (Z.shiftr c 8) 8.
Proof.
  apply Z.bits_inj'. intros n Hn.
  rewrite Z.lxor_spec, Z.land_spec.
  change 255 with (Z.ones 8).
  destruct (Z.lt_ge_cases n 8) as [Hlt | Hge].
  - rewrite Z.ones_spec_low, Z.shiftl_spec_low by lia.
    now destruct (Z.testbit c n).
  - rewrite Z.ones_spec_high, Z.shiftl_spec, Z.shiftr_spec by lia.
    rewrite andb_false_r, xorb_false_r. f_equal. lia.
Qed.

End Words.

(** ** CRC16 *)

Section CRC.

Import ModbusRTU.

Lemma crc_round_range (c : Z) : 0 <= c < 65536 -> 0 <= crc_round c < 65536.
Proof.
  intros Hc. unfold crc_round.
  assert (0 <= Z.shiftr c 1 < 32768) as Hs.
  { rewrite Z.shiftr_div_pow2 by lia. change (2 ^ 1) with 2.
    split; [apply Z.div_pos; lia | apply Z.div_lt_upper_bound; lia]. }
  destruct (Z.land c 1 =? 0); [lia|].
  apply (lxor_range 16); lia.
Qed.

Lemma crc_rounds_range (k : nat) (c : Z) :
  0 <= c < 65536 -> 0 <= Nat.iter k crc_round c < 65536.
Proof.
  intros Hc. induction k as [|k IH]; [exact Hc|].
  cbn [Nat.iter nat_rect]. now apply crc_round_range.
Qed.

Lemma crc_byte_range (c : Z) (b : byte) :
  0 <= c < 65536 -> 0 <= crc_byte c b < 65536.
Proof.
  intros Hc. unfold crc_byte. apply crc_rounds_range.
  pose proof (Z_of_byte_range b). apply (lxor_range 16); lia.
Qed.

Lemma fold_crc_byte_range (msg : bytes) (c : Z) :
  0 <= c < 65536 -> 0 <= fold_left crc_byte msg c < 65536.
Proof.
  revert c. induction msg as [|b msg IH]; intros c Hc; [exact Hc|].
  cbn [fold_left]. apply IH. now apply crc_byte_range.
Qed.

(** The CRC is a 16-bit word, so [struct.pack("<H", crc)] never fails. *)
Lemma _computate_crc_range (msg : bytes) : 0 <= _computate_crc msg < 65536.
Proof. apply fold_crc_byte_range. lia. Qed.

Lemma pack_le_H_crc (msg : bytes) :
  pack_le_H (_computate_crc msg)
  = Return [byte_of_Z (Z.land (_computate_crc msg) 255);
            byte_of_Z (Z.shiftr (_computate_crc msg) 8)].
Proof.
  pose proof (_computate_crc_range msg) as H. unfold pack_le_H, in_range.
  destruct (Z.leb_spec 0 (_computate_crc msg)); [|lia].
  destruct (Z.leb_spec (_computate_crc msg) 65535); [reflexivity|lia].
Qed.

(** While the low bit is clear a round only shifts. *)
Lemma crc_round_shiftl (h k : Z) :
  0 <= k -> crc_round (Z.shiftl h (Z.succ k)) = Z.shiftl h k.
Proof.
  intros Hk. unfold crc_round.
  assert (Z.land (Z.shiftl h (Z.succ k)) 1 = 0) as ->.
  { change 1 with (Z.ones 1). rewrite Z.land_ones by lia.
    rewrite Z.shiftl_mul_pow2, Z.pow_succ_r by lia.
    change (2 ^ 1) with 2.
    replace (h * (2 * 2 ^ k)) with ((h * 2 ^ k) * 2) by ring.
    apply Z.mod_mul. lia. }
  cbn [Z.eqb]. rewrite Z.shiftr_shiftl_l by lia. f_equal. lia.
Qed.

Lemma crc_rounds_shiftl (h : Z) : Nat.iter 8 crc_round (Z.shiftl h 8) = h.
Proof.
  cbn [Nat.iter nat_rect].
  change 8 with (Z.succ 7) at 1. rewrite crc_round_shiftl by lia.
  change 7 with (Z.succ 6) at 1. rewrite crc_round_shiftl by lia.
  change 6 with (Z.succ 5) at 1. rewrite crc_round_shiftl by lia.
  change 5 with (Z.succ 4) at 1. rewrite crc_round_shiftl by lia.
  change 4 with (Z.succ 3) at 1. rewrite crc_round_shiftl by lia.
  change 3 with (Z.succ 2) at 1. rewrite crc_round_shiftl by lia.
  change 2 with (Z.succ 1) at 1. rewrite crc_round_shiftl by lia.
  change 1 with (Z.succ 0) at 1. rewrite crc_round_shiftl by lia.
  apply Z.shiftl_0_r.
Qed.

(** Feeding a CRC its own two bytes, low byte first, clears it. *)
Lemma crc_byte_self (c : Z) :
  0 <= c < 65536 ->
  crc_byte (crc_byte c (byte_of_Z (Z.land c 255))) (byte_of_Z (Z.shiftr c 8)) = 0.
Proof.
  intros Hc. unfold crc_byte.
  rewrite !Z_of_byte_of_Z_small
    by (apply low_byte_range || now apply high_byte_range).
  rewrite lxor_low_byte, crc_rounds_shiftl, Z.lxor_nilpotent.
  reflexivity.
Qed.

Lemma _computate_crc_self (msg : bytes) :
  _computate_crc
    (msg ++ [byte_of_Z (Z.land (_computate_crc msg) 255);
             byte_of_Z (Z.shiftr (_computate_crc msg) 8)]) = 0.
Proof.
  unfold _computate_crc at 1. rewrite fold_left_app. cbn [fold_left].
  apply crc_byte_self, _computate_crc_range.
Qed.

End CRC.

(** C3. For every byte sequence, the CRC16 of the algorithm (accumulator
    started at 0xFFFF; each byte is xor-ed into the accumulator, then eight
    rounds shift it right and xor 0xA001 in when the bit shifted out is 1)
    computed over the message followed by its own CRC, low byte first, is
    exactly 0; and [_check_crc] answers true exactly for the frames whose
    CRC, recomputed over the whole frame with its trailing CRC bytes, is 0. *)
Theorem crc_of_message_with_own_crc :
  ModbusRTU._computate_crc [] = 0xFFFF
  /\ (forall (msg : bytes) (b : byte),
        ModbusRTU._computate_crc (msg ++ [b])
        = Nat.iter 8 ModbusRTU.crc_round
            (Z.lxor (ModbusRTU._computate_crc msg) (Z_of_byte b)))
  /\ (forall c : Z,
        ModbusRTU.crc_round c
        = if Z.testbit c 0 then Z.lxor (Z.shiftr c 1) 0xA001 else Z.shiftr c 1)
  /\ (forall msg : bytes,
        exists crc : bytes,
          pack_le_H (ModbusRTU._computate_crc msg) = Return crc
          /\ length crc = 2%nat
          /\ le_word crc = ModbusRTU._computate_crc msg
          /\ ModbusRTU._computate_crc (msg ++ crc) = 0)
  /\ (forall frame : bytes,
        ModbusRTU._check_crc frame = true <-> ModbusRTU._computate_crc frame = 0).
Proof.
  split; [reflexivity|].
  split.
  { intros msg b. unfold ModbusRTU._computate_crc.
    now rewrite fold_left_app. }
  split.
  { intros c. unfold ModbusRTU.crc_round.
    rewrite Z.bit0_odd. change 1 with (Z.ones 1).
    rewrite Z.land_ones by lia. change (2 ^ 1) with 2.
    rewrite Zodd_mod. destruct (Z.eqb_spec (c mod 2) 1) as [-> | Hne].
    - reflexivity.
    - pose proof (Z.mod_pos_bound c 2 eq_refl).
      assert (c mod 2 = 0) as -> by lia. reflexivity. }
  split.
  { intros msg. eexists. split; [apply pack_le_H_crc|].
    pose proof (_computate_crc_range msg) as Hc.
    split; [reflexivity|]. split.
    - cbn [le_word fold_right].
      rewrite !Z_of_byte_of_Z_small
        by (apply low_byte_range || now apply high_byte_range).
      change 255 with (Z.ones 8). rewrite Z.land_ones, Z.shiftr_div_pow2 by lia.
      change (2 ^ 8) with 256.
      pose proof (Z.div_mod (ModbusRTU._computate_crc msg) 256). lia.
    - apply _computate_crc_self. }
  intros frame. unfold ModbusRTU._check_crc. apply Z.eqb_eq.
Qed.

(** ** Request frames *)

Section Requests.

Import ModbusRTU.

Lemma pack_be_2H_ok (a b : Z) :
  0 <= a < 65536 -> 0 <= b < 65536 ->
  pack_be_2H a b
  = Return [byte_of_Z (Z.shiftr a 8); byte_of_Z (Z.land a 255);
            byte_of_Z (Z.shiftr b 8); byte_of_Z (Z.land b 255)].
Proof.
  intros Ha Hb. unfold pack_be_2H, in_range.
  destruct (Z.leb_spec 0 a), (Z.leb_spec a 65535),
           (Z.leb_spec 0 b), (Z.leb_spec b 65535);
    solve [reflexivity | lia].
Qed.

Lemma bind_Return {A B} (f : A -> result B) (a : A) : Return a ≫= f = f a.
Proof. reflexivity. Qed.

Lemma pack_request (a q : Z) :
  0 <= a < 65536 -> q = 1 \/ q = 2 ->
  (header ← pack_2B 1 3; body ← pack_be_2H a q; mret (header ++ body))
  = Return [x01; x03; byte_of_Z (Z.shiftr a 8); byte_of_Z (Z.land a 255);
            x00; byte_of_Z q].
Proof.
  intros Ha [-> | ->]; rewrite pack_be_2H_ok by lia; reflexivity.
Qed.

Lemma create_message_valid (r : register) :
  valid_type r -> valid_address r ->
  create_message r = Return (request_frame r).
Proof.
  intros Ht Ha. unfold create_message, request_frame, request_body, quantity.
  destruct Ht as [Ht | Ht]; rewrite Ht.
  - rewrite (proj2 (Z.eqb_eq int_addr int_addr) eq_refl).
    rewrite pack_request by (assumption || now left).
    rewrite bind_Return, pack_le_H_crc, bind_Return. reflexivity.
  - replace (float_addr =? int_addr) with false by reflexivity.
    replace (float_addr =? float_addr) with true by reflexivity.
    rewrite pack_request by (assumption || now right).
    rewrite bind_Return, pack_le_H_crc, bind_Return. reflexivity.
Qed.

Lemma create_message_wrong_type (r : register) :
  ~ valid_type r ->
  create_message r
  = Raise (RegisterAddressException "Wrong register address type.").
Proof.
  intros Ht. unfold create_message, valid_type in *.
  destruct (Z.eqb_spec (address_type r) int_addr); [tauto|].
  destruct (Z.eqb_spec (address_type r) float_addr); [tauto|].
  reflexivity.
Qed.

Lemma create_messages_from_valid (registers : list register) :
  Forall valid_type registers -> Forall valid_address registers ->
  forall messages_to_send,
    create_messages_from registers messages_to_send
    = Return (messages_to_send ++ map request_frame registers).
Proof.
  induction registers as [|r rs IH]; intros Ht Ha acc; cbn.
  - now rewrite app_nil_r.
  - inversion Ht; inversion Ha; subst.
    rewrite create_message_valid by assumption. cbn.
    rewrite IH by assumption. now rewrite <- app_assoc.
Qed.

Lemma create_messages_from_wrong_type (registers : list register) :
  Exists (fun r => ~ valid_type r) registers ->
  Forall valid_address registers ->
  forall messages_to_send,
    create_messages_from registers messages_to_send
    = Raise (RegisterAddressException "Wrong register address type.").
Proof.
  induction registers as [|r rs IH]; intros Hex Ha acc.
  - inversion Hex.
  - inversion Ha as [|? ? Hr Hrs]; subst. cbn [create_messages_from].
    destruct (Z.eq_dec (address_type r) int_addr) as [Hi | Hi];
      [|destruct (Z.eq_dec (address_type r) float_addr) as [Hf | Hf]].
    + rewrite create_message_valid by (assumption || now left). cbn.
      apply IH; [|assumption].
      inversion Hex as [? ? Hbad | ]; subst; [|assumption].
      exfalso. apply Hbad. now left.
    + rewrite create_message_valid by (assumption || now right). cbn.
      apply IH; [|assumption].
      inversion Hex as [? ? Hbad | ]; subst; [|assumption].
      exfalso. apply Hbad. now right.
    + rewrite create_message_wrong_type by (unfold valid_type; tauto).
      reflexivity.
Qed.

Lemma be_word_16 (a : Z) :
  0 <= a < 65536 ->
  be_word [byte_of_Z (Z.shiftr a 8); byte_of_Z (Z.land a 255)] = a.
Proof.
  intros Ha. cbn [be_word fold_left].
  rewrite !Z_of_byte_of_Z_small
    by (apply low_byte_range || now apply high_byte_range).
  change 255 with (Z.ones 8). rewrite Z.land_ones, Z.shiftr_div_pow2 by lia.
  change (2 ^ 8) with 256. pose proof (Z.div_mod a 256). lia.
Qed.

Lemma request_frame_check_crc (r : register) :
  _check_crc (request_frame r) = true.
Proof.
  unfold _check_crc, request_frame.
  rewrite _computate_crc_self. reflexivity.
Qed.

End Requests.

(** C2. For a list of descriptors that all have type integer (0) or float
    (1), with 16-bit addresses, [create_messages] returns one frame per
    descriptor in the order of the input; each frame has 8 bytes: 0x01, 0x03,
    the address in two bytes big-endian, the quantity in two bytes
    big-endian (1 for an integer, 2 for a float), and the CRC of these six
    bytes in two bytes little-endian; the whole frame passes the CRC check. *)
Theorem create_messages_frames (registers : list register) :
  Forall valid_type registers ->
  Forall valid_address registers ->
  exists frames : list bytes,
    ModbusRTU.create_messages registers = Return frames
    /\ length frames = length registers
    /\ forall (i : nat) (r : register),
         registers !! i = Some r ->
         exists frame : bytes,
           frames !! i = Some frame
           /\ length frame = 8%nat
           /\ take 2 frame = [x01; x03]
           /\ be_word (take 2 (drop 2 frame)) = address_value r
           /\ be_word (take 2 (drop 4 frame))
              = (if address_type r =? ModbusRTU.int_addr then 1 else 2)
           /\ le_word (drop 6 frame) = ModbusRTU._computate_crc (take 6 frame)
           /\ ModbusRTU._check_crc frame = true.
Proof.
  intros Ht Ha. exists (map request_frame registers).
  split; [apply (create_messages_from_valid registers Ht Ha [])|].
  split; [apply length_map|].
  intros i r Hr. exists (request_frame r).
  split; [now rewrite list_lookup_fmap, Hr|].
  assert (valid_address r) as Hra.
  { rewrite Forall_forall in Ha. apply Ha.
    eapply list_elem_of_lookup_2, Hr. }
  repeat split.
  - cbn [request_frame request_body app take drop].
    now apply be_word_16.
  - cbn [request_frame request_body app take drop]. unfold quantity.
    destruct (address_type r =? ModbusRTU.int_addr); reflexivity.
  - cbn [request_frame request_body app take drop].
    fold (request_body r).
    pose proof (_computate_crc_range (request_body r)) as Hc.
    cbn [le_word fold_right].
    rewrite !Z_of_byte_of_Z_small
      by (apply low_byte_range || now apply high_byte_range).
    change 255 with (Z.ones 8). rewrite Z.land_ones, Z.shiftr_div_pow2 by lia.
    change (2 ^ 8) with 256.
    pose proof (Z.div_mod (ModbusRTU._computate_crc (request_body r)) 256). lia.
  - apply request_frame_check_crc.
Qed.

Lemma create_messages_frames_witness :
  exists frames : list bytes,
    ModbusRTU.create_messages [Register 0x10 0; Register 0x20 1] = Return frames
    /\ length frames = 2%nat.
Proof.
  destruct (create_messages_frames [Register 0x10 0; Register 0x20 1])
    as (frames & Hrun & Hlen & _).
  - constructor; [now left|]. constructor; [now right|]. constructor.
  - constructor; [unfold valid_address; cbn; lia|].
    constructor; [unfold valid_address; cbn; lia|]. constructor.
  - exists frames. split; [exact Hrun | exact Hlen].
Defined.

(** ** Response decoding *)

Section Responses.

Import ModbusRTU.

(** What reaches [struct.unpack("1h", msg)]: the two data bytes, swapped
    on a little-endian host. *)
Lemma get_int_value_from_response_bytes (o : byteorder)
    (u f d0 d1 c_lo c_hi : byte) :
  get_int_value_from_response o [u; f; x02; d0; d1; c_lo; c_hi]
  = unpack_1h o (match o with little => [d1; d0] | big => [d0; d1] end).
Proof. destruct o; reflexivity. Qed.

(** On both kinds of host the decoder reads the two data bytes as a
    big-endian signed word. *)
Lemma get_int_value_from_response_word (o : byteorder)
    (u f d0 d1 c_lo c_hi : byte) :
  get_int_value_from_response o [u; f; x02; d0; d1; c_lo; c_hi]
  = Return (signed16 (be_word [d0; d1])).
Proof.
  rewrite get_int_value_from_response_bytes.
  destruct o; unfold unpack_1h, native_word;
    cbn [length Nat.eqb le_word be_word fold_right fold_left];
    do 2 f_equal; lia.
Qed.

Lemma be_word_int16_wire (v : Z) :
  -32768 <= v < 32768 -> signed16 (be_word (int16_wire v)) = v.
Proof.
  intros Hv. unfold int16_wire. cbn [be_word fold_left].
  rewrite !Z_of_byte_of_Z.
  change 255 with (Z.ones 8). rewrite Z.land_ones, Z.shiftr_div_pow2 by lia.
  change (2 ^ 8) with 256. rewrite Z.mod_mod by lia.
  pose proof (Z.div_mod v 256 ltac:(lia)) as Hdm.
  pose proof (Z.mod_pos_bound v 256 eq_refl) as Hlo.
  pose proof (Z.div_mod (v / 256) 256 ltac:(lia)) as Hdm'.
  pose proof (Z.mod_pos_bound (v / 256) 256 eq_refl) as Hhi.
  unfold signed16.
  destruct (Z.ltb_spec (256 * (256 * 0 + (v / 256) mod 256) + v mod 256) 32768);
    lia.
Qed.

(** What reaches [struct.unpack("1f", msg)] on each kind of host. *)
Lemma get_float_value_from_response_bytes (o : byteorder)
    (u f b0 b1 b2 b3 c_lo c_hi : byte) :
  get_float_value_from_response o [u; f; x04; b0; b1; b2; b3; c_lo; c_hi]
  = unpack_1f o (match o with
                 | little => [b1; b0; b3; b2]
                 | big => [b2; b3; b0; b1]
                 end).
Proof. destruct o; reflexivity. Qed.

End Responses.

(** C6. An integer response with byte count 2 whose two data bytes hold a
    signed 16-bit value in big-endian wire order decodes to that value, on a
    little-endian host (which swaps the two bytes before the native
    interpretation) and on a big-endian host alike; the reply
    01 03 02 00 2A followed by its CRC decodes to 42. *)
Theorem get_int_value_from_response_decodes
    (o : byteorder) (v : Z) (u f c_lo c_hi : byte) :
  -32768 <= v < 32768 ->
  ModbusRTU.get_int_value_from_response o
    ([u; f; x02] ++ int16_wire v ++ [c_lo; c_hi]) = Return v
  /\ (forall d0 d1 : byte,
        ModbusRTU.get_int_value_from_response o [u; f; x02; d0; d1; c_lo; c_hi]
        = unpack_1h o (match o with little => [d1; d0] | big => [d0; d1] end))
  /\ (exists crc : bytes,
        pack_le_H (ModbusRTU._computate_crc [x01; x03; x02; x00; x2a]) = Return crc
        /\ ModbusRTU.get_int_value_from_response o
             ([x01; x03; x02; x00; x2a] ++ crc) = Return 42).
Proof.
  intros Hv. split.
  - unfold int16_wire. cbn [app].
    rewrite get_int_value_from_response_word.
    f_equal. now apply be_word_int16_wire.
  - split; [intros d0 d1; apply get_int_value_from_response_bytes|].
    exists [x39; x9b]. split; [vm_compute; reflexivity|].
    destruct o; reflexivity.
Qed.

Lemma get_int_value_from_response_decodes_witness :
  -32768 <= -2 < 32768
  /\ ModbusRTU.get_int_value_from_response little
       [x01; x03; x02; xff; xfe; x00; x00] = Return (-2).
Proof.
  split; [lia|].
  apply (get_int_value_from_response_decodes little (-2) x01 x03 x00 x00). lia.
Defined.

(** C5. For a float response whose four data bytes are b0 b1 b2 b3, the
    decoder hands to the native float interpretation the bytes b1 b0 b3 b2
    on a little-endian host (the bytes of each register swapped) and the
    bytes b2 b3 b0 b1 on a big-endian host (the two registers swapped, the
    bytes inside each kept). *)
Theorem get_float_value_from_response_transform
    (u f b0 b1 b2 b3 c_lo c_hi : byte) :
  ModbusRTU.get_float_value_from_response little
    [u; f; x04; b0; b1; b2; b3; c_lo; c_hi]
  = unpack_1f little [b1; b0; b3; b2]
  /\ ModbusRTU.get_float_value_from_response big
       [u; f; x04; b0; b1; b2; b3; c_lo; c_hi]
     = unpack_1f big [b2; b3; b0; b1].
Proof.
  split.
  - apply (get_float_value_from_response_bytes little).
  - apply (get_float_value_from_response_bytes big).
Qed.

(** Both hosts therefore read the same 32-bit pattern: the second register
    is the high half. *)
Lemma get_float_value_from_response_bits
    (o : byteorder) (u f b0 b1 b2 b3 c_lo c_hi : byte) :
  ModbusRTU.get_float_value_from_response o
    [u; f; x04; b0; b1; b2; b3; c_lo; c_hi]
  = Return (Float32 (quiet_nan (be_word [b2; b3; b0; b1]))).
Proof.
  rewrite get_float_value_from_response_bytes.
  destruct o; unfold unpack_1f, native_word;
    cbn [length Nat.eqb le_word be_word fold_right fold_left];
    do 3 f_equal; lia.
Qed.

(** The pattern 0x40600000 is 3.5. *)
Example float_3_5 (o : byteorder) :
  ModbusRTU.get_float_value_from_response o
    [x01; x03; x04; x00; x00; x40; x60; x00; x00]
  = Return (Float32 0x40600000).
Proof. destruct o; reflexivity. Qed.

(** A signalling NaN comes out quiet: 0x7FA00000 is read as 0x7FE00000. *)
Example float_signalling_nan (o : byteorder) :
  ModbusRTU.get_float_value_from_response o
    [x01; x03; x04; x00; x00; x7f; xa0; x00; x00]
  = Return (Float32 0x7FE00000).
Proof. destruct o; reflexivity. Qed.

(** ** One send/receive pass *)

Section Pass.

Import UdpProtocol.

Variable network : nat -> exchange.

Lemma after_exchange_this s m : this (after_exchange network s m) = this s.
Proof. unfold after_exchange. now destruct (network _). Qed.

Lemma after_exchange_peer s m : peer (after_exchange network s m) = peer s.
Proof. unfold peer. now rewrite after_exchange_this. Qed.

Lemma after_exchange_exchanges s m :
  exchanges (net (after_exchange network s m)) = S (exchanges (net s)).
Proof. unfold after_exchange. now destruct (network _). Qed.

Lemma after_exchange_sent s m :
  sent (net (after_exchange network s m))
  = sent (net s) ++ pass_sent network (exchanges (net s)) [m] (peer s).
Proof.
  unfold after_exchange. cbn [pass_sent].
  destruct (network _); cbn; now rewrite ?app_nil_r.
Qed.

(** One turn of the loop, by the outcome of its exchange. *)
Lemma handle_messages_loop_cons m rest acc mr s :
  handle_messages_loop network (m :: rest) acc mr s
  = let s' := after_exchange network s m in
    let e := network (exchanges (net s)) in
    if timed_out e then (Return None, s')
    else
      match received e mr with
      | Some r =>
          handle_messages_loop network rest (acc ++ [fst r]) (received e mr) s'
      | None => (Raise UnboundLocalError, s')
      end.
Proof.
  cbn [handle_messages_loop].
  unfold after_exchange, sendto, recvfrom, peer, mbind, M_bind.
  cbn [this net exchanges leave].
  destruct (network (exchanges (net s))) as [[|]|[|]|d a] eqn:He;
    cbn [this net exchanges leave]; rewrite ?He;
    cbn [timed_out received exn_of fst]; try reflexivity;
    destruct mr; reflexivity.
Qed.

(** A pass leaves the attributes of the session alone. *)
Lemma handle_messages_loop_this msgs : forall acc mr s r s',
  handle_messages_loop network msgs acc mr s = (r, s') -> this s' = this s.
Proof.
  induction msgs as [|m rest IH]; intros acc mr s r s' H.
  - now inversion H.
  - rewrite handle_messages_loop_cons in H. cbv zeta in H.
    destruct (timed_out _).
    + inversion H; subst. apply after_exchange_this.
    + destruct (received _ _).
      * apply IH in H. now rewrite H, after_exchange_this.
      * inversion H; subst. apply after_exchange_this.
Qed.

(** The only exception that escapes a pass is [UnboundLocalError]. *)
Lemma handle_messages_loop_raises msgs : forall acc mr s e s',
  handle_messages_loop network msgs acc mr s = (Raise e, s') ->
  e = UnboundLocalError.
Proof.
  induction msgs as [|m rest IH]; intros acc mr s e s' H.
  - inversion H.
  - rewrite handle_messages_loop_cons in H. cbv zeta in H.
    destruct (timed_out _); [inversion H|].
    destruct (received _ _).
    + now apply IH in H.
    + now inversion H.
Qed.

(** Every pass tries a prefix of the batch, first frame first, and only
    the datagrams of that prefix leave. *)
Lemma handle_messages_loop_wire msgs : forall acc mr s r s',
  handle_messages_loop network msgs acc mr s = (r, s') ->
  exists n : nat,
    (n <= length msgs)%nat
    /\ (msgs <> [] -> (0 < n)%nat)
    /\ exchanges (net s') = (exchanges (net s) + n)%nat
    /\ sent (net s')
       = sent (net s) ++ pass_sent network (exchanges (net s)) (take n msgs) (peer s).
Proof.
  induction msgs as [|m rest IH]; intros acc mr s r s' H.
  - inversion H; subst. exists 0%nat. cbn.
    repeat split; [lia | congruence | lia | now rewrite app_nil_r].
  - rewrite handle_messages_loop_cons in H. cbv zeta in H.
    assert (exchanges (net (after_exchange network s m)) = (exchanges (net s) + 1)%nat
            /\ sent (net (after_exchange network s m))
               = sent (net s)
                 ++ pass_sent network (exchanges (net s)) (take 1 (m :: rest)) (peer s))
      as Hone.
    { rewrite after_exchange_exchanges, after_exchange_sent.
      split; [lia | reflexivity]. }
    destruct (timed_out _);
      [|destruct (received _ _)].
    + inversion H; subst. exists 1%nat. cbn [length].
      repeat split; try lia; apply Hone.
    + apply IH in H as (n & Hn & _ & Hex & Hsent).
      exists (S n). cbn [length].
      split; [lia|]. split; [lia|].
      split; [rewrite Hex, after_exchange_exchanges; lia|].
      rewrite Hsent, after_exchange_sent, after_exchange_exchanges,
        after_exchange_peer.
      rewrite <- app_assoc. cbn [take firstn pass_sent].
      now rewrite app_nil_r.
    + inversion H; subst. exists 1%nat. cbn [length].
      repeat split; try lia; apply Hone.
Qed.

(** A pass that returns a list went through the whole batch and appended
    one element per request; the element of a request whose exchange had
    a reply is that reply. *)
Lemma handle_messages_loop_Some msgs : forall acc mr s l s',
  handle_messages_loop network msgs acc mr s = (Return (Some l), s') ->
  exchanges (net s') = (exchanges (net s) + length msgs)%nat
  /\ exists tail : list bytes,
       l = acc ++ tail
       /\ length tail = length msgs
       /\ forall (i : nat) d a,
            network (exchanges (net s) + i)%nat = recvfrom_returns d a ->
            (i < length msgs)%nat ->
            tail !! i = Some (take 256 d).
Proof.
  induction msgs as [|m rest IH]; intros acc mr s l s' H.
  - inversion H; subst. split; [cbn; lia|].
    exists []. rewrite app_nil_r. repeat split. cbn. lia.
  - rewrite handle_messages_loop_cons in H. cbv zeta in H.
    destruct (timed_out _); [inversion H|].
    destruct (received _ _) as [r|] eqn:Hr; [|inversion H].
    apply IH in H as (Hex & tail & -> & Hlen & Hslot).
    rewrite after_exchange_exchanges in Hex, Hslot.
    split; [cbn [length]; lia|].
    exists (fst r :: tail). rewrite <- app_assoc.
    split; [reflexivity|]. split; [cbn [length]; lia|].
    intros [|i] d a Hnet Hi.
    + rewrite Nat.add_0_r in Hnet. rewrite Hnet in Hr. cbn in Hr.
      inversion Hr; subst. reflexivity.
    + cbn [lookup list_lookup]. apply (Hslot i d a).
      * rewrite <- Hnet. f_equal. lia.
      * cbn [length] in Hi. lia.
Qed.

(** When every exchange of the pass has a reply, the pass returns the
    replies in the order of the requests, and every request left once. *)
Lemma handle_messages_loop_replies msgs : forall acc mr s,
  (forall i : nat, (i < length msgs)%nat ->
     replied (network (exchanges (net s) + i)%nat) = true) ->
  handle_messages_loop network msgs acc mr s
  = (Return (Some (acc ++ map (fun i => reply_of (network i))
                            (seq (exchanges (net s)) (length msgs)))),
     State (this s)
           (Wire (exchanges (net s) + length msgs)
                 (sent (net s) ++ map (fun m => (m, peer s)) msgs))).
Proof.
  induction msgs as [|m rest IH]; intros acc mr s Hall.
  - cbn. rewrite !app_nil_r, Nat.add_0_r. now destruct s as [o [n l]].
  - rewrite handle_messages_loop_cons. cbv zeta.
    pose proof (Hall 0%nat ltac:(cbn; lia)) as H0.
    rewrite Nat.add_0_r in H0.
    assert (after_exchange network s m
            = State (this s) (tick (leave (net s) (m, peer s)))) as Hs.
    { unfold after_exchange. now destruct (network (exchanges (net s))). }
    destruct (network (exchanges (net s))) as [| |d a] eqn:He;
      try discriminate H0.
    cbn [timed_out received fst]. rewrite Hs, IH.
    + cbn [this net exchanges sent tick leave length seq map].
      rewrite He. cbn [reply_of]. unfold peer. cbn [this].
      rewrite <- !app_assoc, Nat.add_succ_r. reflexivity.
    + intros i Hi. cbn [this net exchanges tick leave].
      replace (S (exchanges (net s)) + i)%nat
        with (exchanges (net s) + S i)%nat by lia.
      apply Hall. cbn [length]. lia.
Qed.

(** The first exchange of the pass that times out ends the pass: it
    returns [None] and nothing after that request is tried.  The pass
    gets as far as request [k] when no earlier exchange timed out and
    [message_received] was bound by the time an exchange failed
    otherwise. *)
Lemma handle_messages_loop_timeout msgs : forall (k : nat) acc mr s,
  (k < length msgs)%nat ->
  timed_out (network (exchanges (net s) + k)%nat) = true ->
  (forall j : nat, (j < k)%nat ->
     timed_out (network (exchanges (net s) + j)%nat) = false) ->
  mr <> None \/ k = 0%nat \/ replied (network (exchanges (net s))) = true ->
  exists s' : state,
    handle_messages_loop network msgs acc mr s = (Return None, s')
    /\ exchanges (net s') = (exchanges (net s) + S k)%nat.
Proof.
  induction msgs as [|m rest IH]; intros k acc mr s Hk Hto Hbefore Hbound.
  - cbn in Hk. lia.
  - rewrite handle_messages_loop_cons. cbv zeta. destruct k as [|k].
    + rewrite Nat.add_0_r in Hto. rewrite Hto.
      eexists. split; [reflexivity|].
      rewrite after_exchange_exchanges. lia.
    + pose proof (Hbefore 0%nat ltac:(lia)) as H0.
      rewrite Nat.add_0_r in H0. rewrite H0.
      assert (received (network (exchanges (net s))) mr <> None) as Hr.
      { destruct Hbound as [Hmr | [Hk0 | Hrep]]; [|discriminate|].
        - now destruct (network (exchanges (net s))).
        - now destruct (network (exchanges (net s))). }
      destruct (received (network (exchanges (net s))) mr) as [r|] eqn:Er;
        [|congruence].
      destruct (IH k (acc ++ [fst r]) (Some r) (after_exchange network s m))
        as (s' & Hrun & Hex).
      * cbn [length] in Hk. lia.
      * rewrite after_exchange_exchanges.
        replace (S (exchanges (net s)) + k)%nat
          with (exchanges (net s) + S k)%nat by lia.
        exact Hto.
      * intros j Hj. rewrite after_exchange_exchanges.
        replace (S (exchanges (net s)) + j)%nat
          with (exchanges (net s) + S j)%nat by lia.
        apply Hbefore. lia.
      * left. discriminate.
      * exists s'. split; [exact Hrun|].
        rewrite Hex, after_exchange_exchanges. lia.
Qed.

End Pass.

(** ** The retry loop *)

Section Retry.

Import UdpProtocol.

Variable network : nat -> exchange.

Lemma retry_loop_step fuel msgs rm s :
  retry_loop network (S fuel) msgs rm s
  = if guard rm s then
      match handle_messages_via_socket network msgs s with
      | (Return rm1, s1) =>
          retry_loop network fuel msgs rm1 (if not_ rm1 then bump s1 else s1)
      | (Raise e, s1) => (Raise e, s1)
      end
    else (Return rm, s).
Proof.
  cbn [retry_loop]. fold (guard rm s). destruct (guard rm s); [|reflexivity].
  unfold mbind, M_bind.
  destruct (handle_messages_via_socket network msgs s) as [[rm1|e] s1];
    [|reflexivity].
  destruct (not_ rm1); reflexivity.
Qed.

Lemma retry_loop_done fuel msgs rm s :
  guard rm s = false -> retry_loop network fuel msgs rm s = (Return rm, s).
Proof.
  intros Hg. destruct fuel; cbn [retry_loop]; fold (guard rm s);
    now rewrite Hg.
Qed.

Lemma same_session_fields o o' :
  same_session o o' ->
  the_transductor o' = the_transductor o
  /\ max_receive_attempts o' = max_receive_attempts o
  /\ port o' = port o /\ socket o' = socket o.
Proof.
  destruct o, o'. unfold same_session, set_receive_attempts. cbn.
  intros H. now inversion H.
Qed.

Lemma handle_messages_via_socket_this msgs s r s' :
  handle_messages_via_socket network msgs s = (r, s') -> this s' = this s.
Proof. apply handle_messages_loop_this. Qed.

Lemma retry_loop_same_session fuel msgs : forall rm s r s',
  retry_loop network fuel msgs rm s = (r, s') ->
  same_session (this s) (this s')
  /\ receive_attempts (this s) <= receive_attempts (this s').
Proof.
  induction fuel as [|fuel IH]; intros rm s r s' H.
  - cbn [retry_loop] in H.
    destruct (_ && _); inversion H; subst; split; (reflexivity || lia).
  - rewrite retry_loop_step in H.
    destruct (guard rm s);
      [|inversion H; subst; split; (reflexivity || lia)].
    destruct (handle_messages_via_socket network msgs s) as [[rm1|e] s1] eqn:Hp;
      apply handle_messages_via_socket_this in Hp.
    + apply IH in H as [Hsame Hle].
      destruct (not_ rm1).
      * unfold same_session in *. cbn [bump this] in Hsame, Hle.
        rewrite Hp in Hsame, Hle. split.
        -- rewrite Hsame. now destruct (this s).
        -- destruct (this s); cbn in *; lia.
      * now rewrite Hp in Hsame, Hle.
    + inversion H; subst. rewrite Hp. split; (reflexivity || lia).
Qed.

(** Nothing but [UnboundLocalError] escapes the loop. *)
Lemma retry_loop_raises fuel msgs : forall rm s e s',
  retry_loop network fuel msgs rm s = (Raise e, s') -> e = UnboundLocalError.
Proof.
  induction fuel as [|fuel IH]; intros rm s e s' H.
  - cbn [retry_loop] in H. destruct (_ && _); inversion H.
  - rewrite retry_loop_step in H.
    destruct (guard rm s); [|inversion H].
    destruct (handle_messages_via_socket network msgs s) as [[rm1|e1] s1] eqn:Hp.
    + now apply IH in H.
    + inversion H; subst.
      now apply handle_messages_loop_raises in Hp.
Qed.

(** With [turns] unfoldings the loop ends because its condition is
    false, not because the unfoldings ran out. *)
Lemma retry_loop_exit fuel msgs : forall rm s rm' s',
  (turns (this s) <= fuel)%nat ->
  retry_loop network fuel msgs rm s = (Return rm', s') ->
  guard rm' s' = false.
Proof.
  induction fuel as [|fuel IH]; intros rm s rm' s' Hfuel H.
  - cbn [retry_loop] in H. fold (guard rm s) in H.
    destruct (guard rm s) eqn:Hg; inversion H; subst; [|exact Hg].
    unfold guard in Hg. unfold turns in Hfuel.
    apply andb_prop in Hg as [_ Hlt]. apply Z.ltb_lt in Hlt. lia.
  - rewrite retry_loop_step in H.
    destruct (guard rm s) eqn:Hg; [|inversion H; subst; exact Hg].
    destruct (handle_messages_via_socket network msgs s) as [[rm1|e] s1] eqn:Hp;
      [|inversion H].
    apply handle_messages_via_socket_this in Hp.
    destruct (not_ rm1) eqn:Hn.
    + apply IH in H; [exact H|].
      unfold guard in Hg. apply andb_prop in Hg as [_ Hlt].
      apply Z.ltb_lt in Hlt. unfold turns in *. cbn [bump this].
      rewrite Hp. destruct (this s); cbn in *. lia.
    + rewrite retry_loop_done in H by (unfold guard; now rewrite Hn).
      inversion H; subst. unfold guard. now rewrite Hn.
Qed.

(** Either nothing usable has been collected or attempts are left. *)
Lemma retry_loop_collected fuel msgs : forall rm s rm' s',
  not_ rm = true
  \/ receive_attempts (this s) < max_receive_attempts (this s) ->
  retry_loop network fuel msgs rm s = (Return rm', s') ->
  not_ rm' = true
  \/ receive_attempts (this s') < max_receive_attempts (this s').
Proof.
  induction fuel as [|fuel IH]; intros rm s rm' s' Hinv H.
  - cbn [retry_loop] in H. destruct (_ && _); inversion H; subst; exact Hinv.
  - rewrite retry_loop_step in H.
    destruct (guard rm s) eqn:Hg; [|inversion H; subst; exact Hinv].
    destruct (handle_messages_via_socket network msgs s) as [[rm1|e] s1] eqn:Hp;
      [|inversion H].
    apply handle_messages_via_socket_this in Hp.
    destruct (not_ rm1) eqn:Hn.
    + apply IH in H; [exact H | now left].
    + apply IH in H; [exact H|]. right. rewrite Hp.
      unfold guard in Hg. apply andb_prop in Hg as [_ Hlt].
      now apply Z.ltb_lt in Hlt.
Qed.

(** A non-empty list that the loop returns is what its last pass
    returned, in the state that pass left. *)
Lemma retry_loop_origin fuel msgs : forall rm s rm' s',
  retry_loop network fuel msgs rm s = (Return rm', s') ->
  not_ rm' = false ->
  (rm' = rm /\ s' = s)
  \/ exists s0, handle_messages_via_socket network msgs s0 = (Return rm', s').
Proof.
  induction fuel as [|fuel IH]; intros rm s rm' s' H Hn.
  - cbn [retry_loop] in H. destruct (_ && _); inversion H; subst; now left.
  - rewrite retry_loop_step in H.
    destruct (guard rm s) eqn:Hg; [|inversion H; subst; now left].
    destruct (handle_messages_via_socket network msgs s) as [[rm1|e] s1] eqn:Hp;
      [|inversion H].
    destruct (not_ rm1) eqn:Hn1.
    + apply IH in H as [[-> _] | Hlast]; [congruence | now right | exact Hn].
    + apply IH in H as [[-> ->] | Hlast]; [right; now exists s | now right
                                          | exact Hn].
Qed.

(** The loop never takes [receive_attempts] beyond the maximum. *)
Lemma retry_loop_attempts_le fuel msgs : forall rm s r s',
  retry_loop network fuel msgs rm s = (r, s') ->
  receive_attempts (this s) <= max_receive_attempts (this s) ->
  receive_attempts (this s') <= max_receive_attempts (this s').
Proof.
  induction fuel as [|fuel IH]; intros rm s r s' H Hle.
  - cbn [retry_loop] in H. destruct (_ && _); inversion H; subst; exact Hle.
  - rewrite retry_loop_step in H.
    destruct (guard rm s) eqn:Hg; [|inversion H; subst; exact Hle].
    destruct (handle_messages_via_socket network msgs s) as [[rm1|e] s1] eqn:Hp;
      apply handle_messages_via_socket_this in Hp.
    + apply IH in H; [exact H|].
      unfold guard in Hg. apply andb_prop in Hg as [_ Hlt].
      apply Z.ltb_lt in Hlt.
      destruct (not_ rm1); [|now rewrite Hp].
      cbn [bump this]. rewrite Hp. destruct (this s); cbn in *. lia.
    + inversion H; subst. now rewrite Hp.
Qed.

(** [manage_received_messages], with the monad unfolded. *)
Lemma manage_received_messages_unfold msgs s :
  manage_received_messages network msgs s
  = match retry_loop network (turns (this (reset s))) msgs (Some []) (reset s) with
    | (Return rm, s1) =>
        if exhausted s1 && negb (broken (the_transductor (this s1)))
        then (Raise (BrokenTransductorException "Transductor is broken!"), s1)
        else (Return rm, s1)
    | (Raise e, s1) => (Raise e, s1)
    end.
Proof.
  unfold manage_received_messages, reset_receive_attempts, get, put, raise,
    mbind, M_bind, mret, M_ret, reset, exhausted.
  cbn [this net].
  destruct (retry_loop _ _ _ _ _) as [[rm|e] s1]; [|reflexivity].
  destruct (_ && _); reflexivity.
Qed.

End Retry.

Example create_messages_0x10 :
  ModbusRTU.create_messages [Register 0x10 0] = Return [request_0x10].
Proof. vm_compute. reflexivity. Qed.

Example reply_42_check_crc : ModbusRTU._check_crc reply_42 = true.
Proof. vm_compute. reflexivity. Qed.

Example start_communication_answering :
  fst (UdpProtocol.start_communication answering (fresh (device false)))
  = Return (Some [reply_42]).
Proof. vm_compute. reflexivity. Qed.

(** ** The communication call *)

(** C4. [manage_received_messages] raises [BrokenTransductorException]
    exactly when its retry loop ends with [receive_attempts] equal to
    [max_receive_attempts] while the transductor is not marked broken.
    When the loop ends with the attempts used up on a transductor already
    marked broken, the call returns, without error, a result that is [None]
    or empty; when it ends with attempts left, the call returns what the
    loop collected. *)
Theorem manage_received_messages_outcome
    (network : nat -> UdpProtocol.exchange) (msgs : list bytes)
    (s : UdpProtocol.state) res (s' : UdpProtocol.state) :
  UdpProtocol.manage_received_messages network msgs s = (res, s') ->
  ((exists message, res = Raise (BrokenTransductorException message))
   <-> exists rm,
         UdpProtocol.retry_loop network
           (UdpProtocol.turns (UdpProtocol.this (reset s))) msgs (Some []) (reset s)
         = (Return rm, s')
         /\ UdpProtocol.receive_attempts (UdpProtocol.this s')
            = UdpProtocol.max_receive_attempts (UdpProtocol.this s')
         /\ broken (UdpProtocol.the_transductor (UdpProtocol.this s')) = false)
  /\ forall rm s1,
       UdpProtocol.retry_loop network
         (UdpProtocol.turns (UdpProtocol.this (reset s))) msgs (Some []) (reset s)
       = (Return rm, s1) ->
       guard rm s1 = false
       /\ s' = s1
       /\ UdpProtocol.the_transductor (UdpProtocol.this s1)
          = UdpProtocol.the_transductor (UdpProtocol.this s)
       /\ (UdpProtocol.receive_attempts (UdpProtocol.this s1)
           = UdpProtocol.max_receive_attempts (UdpProtocol.this s1) ->
           broken (UdpProtocol.the_transductor (UdpProtocol.this s1)) = true ->
           res = Return rm /\ UdpProtocol.not_ rm = true)
       /\ (UdpProtocol.receive_attempts (UdpProtocol.this s1)
           <> UdpProtocol.max_receive_attempts (UdpProtocol.this s1) ->
           res = Return rm).
Proof.
  intros Hcall. rewrite manage_received_messages_unfold in Hcall.
  destruct (UdpProtocol.retry_loop _ _ _ _ _) as [[rm|e] s1] eqn:Hloop.
  - unfold exhausted in Hcall. split.
    + split.
      * intros [message ->].
        destruct (_ && _) eqn:Hc; inversion Hcall; subst.
        apply andb_prop in Hc as [Hx Hb]. apply Z.eqb_eq in Hx.
        exists rm. repeat split; [exact Hx | now destruct (broken _)].
      * intros (rm' & Heq & Hx & Hb). inversion Heq; subst.
        rewrite Hx, Z.eqb_refl, Hb in Hcall. inversion Hcall. eauto.
    + intros rm' s1' Heq. inversion Heq; subst rm' s1'.
      pose proof (retry_loop_exit network _ msgs _ _ _ _ (Nat.le_refl _) Hloop)
        as Hexit.
      pose proof (retry_loop_collected network _ msgs (Some []) (reset s) rm s1
                    (or_introl eq_refl) Hloop) as Hcol.
      pose proof (retry_loop_same_session network _ msgs _ _ _ _ Hloop)
        as [Hsame _].
      apply same_session_fields in Hsame as (Ht & _).
      split; [exact Hexit|].
      assert (s' = s1) as ->
        by (destruct (_ && _); now inversion Hcall).
      split; [reflexivity|]. split; [exact Ht|]. split.
      * intros Hx Hb. rewrite Hx, Z.eqb_refl, Hb in Hcall.
        inversion Hcall. split; [reflexivity|].
        destruct Hcol as [Hn | Hlt]; [exact Hn | lia].
      * intros Hx. apply Z.eqb_neq in Hx. rewrite Hx in Hcall.
        now inversion Hcall.
  - inversion Hcall; subst. apply retry_loop_raises in Hloop as ->. split.
    + split; [intros [message Hm]; discriminate Hm|].
      intros (rm & Heq & _). discriminate Heq.
    + intros rm s1' Heq. discriminate Heq.
Qed.

(** Three passes time out on a transductor that is not marked broken. *)
Lemma manage_received_messages_outcome_witness :
  (exists message,
     Raise (A := option (list bytes))
       (BrokenTransductorException "Transductor is broken!")
     = Raise (BrokenTransductorException message))
  <-> exists rm,
        UdpProtocol.retry_loop silent 3 [request_0x10] (Some [])
          (reset (fresh (device false)))
        = (Return rm,
           UdpProtocol.State
             (UdpProtocol.set_receive_attempts
                (UdpProtocol.this (fresh (device false))) 3)
             (UdpProtocol.Wire 3
                [(request_0x10, ("10.0.0.2"%string, 1001));
                 (request_0x10, ("10.0.0.2"%string, 1001));
                 (request_0x10, ("10.0.0.2"%string, 1001))]))
        /\ 3 = 3
        /\ false = false.
Proof.
  apply (manage_received_messages_outcome silent [request_0x10]
           (fresh (device false))).
  reflexivity.
Defined.

(** C7, as stated: after a call whose first pass got a reply to every
    request, [receive_attempts] is 1.  It is not: the counter counts the
    passes that collected nothing, and stays 0. *)
Lemma receive_attempts_after_first_pass_not_1 :
  ~ (forall (network : nat -> UdpProtocol.exchange) (msgs : list bytes)
            (s : UdpProtocol.state) r (s' : UdpProtocol.state),
       (forall i : nat, (i < length msgs)%nat ->
          replied (network (UdpProtocol.exchanges (UdpProtocol.net s) + i)%nat)
          = true) ->
       UdpProtocol.manage_received_messages network msgs s = (r, s') ->
       UdpProtocol.receive_attempts (UdpProtocol.this s') = 1).
Proof.
  intros H.
  specialize (H answering [request_0x10] (fresh (device false)) _ _
                (fun _ _ => eq_refl) eq_refl).
  discriminate H.
Qed.

(** C7, amended. When the request list is not empty, at least one attempt
    is allowed and every exchange of the first pass has a reply, the call
    returns after that single pass: the result is the list of the replies
    in the order of the requests, each request has left exactly once, and
    [receive_attempts] is 0. *)
Theorem manage_received_messages_first_pass
    (network : nat -> UdpProtocol.exchange) (msgs : list bytes)
    (s : UdpProtocol.state) :
  msgs <> [] ->
  0 < UdpProtocol.max_receive_attempts (UdpProtocol.this s) ->
  (forall i : nat, (i < length msgs)%nat ->
     replied (network (UdpProtocol.exchanges (UdpProtocol.net s) + i)%nat) = true) ->
  UdpProtocol.manage_received_messages network msgs s
  = (Return (Some (map (fun i => reply_of (network i))
                       (seq (UdpProtocol.exchanges (UdpProtocol.net s))
                            (length msgs)))),
     UdpProtocol.State
       (UdpProtocol.set_receive_attempts (UdpProtocol.this s) 0)
       (UdpProtocol.Wire
          (UdpProtocol.exchanges (UdpProtocol.net s) + length msgs)
          (UdpProtocol.sent (UdpProtocol.net s)
           ++ map (fun m => (m, peer s)) msgs))).
Proof.
  intros Hne Hmax Hall. rewrite manage_received_messages_unfold.
  assert (UdpProtocol.max_receive_attempts (UdpProtocol.this (reset s))
          = UdpProtocol.max_receive_attempts (UdpProtocol.this s)) as Hm
    by now destruct s as [[] ?].
  assert (UdpProtocol.receive_attempts (UdpProtocol.this (reset s)) = 0) as Ha
    by now destruct s as [[] ?].
  destruct (UdpProtocol.turns (UdpProtocol.this (reset s))) as [|fuel] eqn:Hfuel.
  { unfold UdpProtocol.turns in Hfuel. rewrite Hm, Ha in Hfuel. lia. }
  rewrite retry_loop_step.
  assert (guard (Some []) (reset s) = true) as ->.
  { unfold guard. rewrite Hm, Ha. cbn. now apply Z.ltb_lt. }
  unfold UdpProtocol.handle_messages_via_socket.
  rewrite handle_messages_loop_replies by exact Hall.
  cbn [app]. destruct msgs as [|m rest]; [congruence|].
  cbn [length seq map UdpProtocol.not_].
  rewrite retry_loop_done by reflexivity.
  unfold exhausted. cbn [UdpProtocol.this]. rewrite Ha, Hm.
  destruct (Z.eqb_spec 0 (UdpProtocol.max_receive_attempts (UdpProtocol.this s)));
    [lia|].
  cbn [andb]. now destruct s as [[] ?].
Qed.

Lemma manage_received_messages_first_pass_witness :
  UdpProtocol.manage_received_messages answering [request_0x10]
    (fresh (device false))
  = (Return (Some [reply_42]),
     UdpProtocol.State
       (UdpProtocol.__init__ (device false) (inject_Z 10) 1001)
       (UdpProtocol.Wire 1 [(request_0x10, ("10.0.0.2"%string, 1001))])).
Proof.
  apply (manage_received_messages_first_pass answering [request_0x10]
           (fresh (device false))).
  - discriminate.
  - reflexivity.
  - intros i _. reflexivity.
Defined.

(** C1, as stated: every call that returns without exception returns a
    list with one element per request.  It does not when the attempts run
    out on a transductor already marked broken: the call returns [None]. *)
Lemma responses_not_one_per_request :
  ~ (forall (network : nat -> UdpProtocol.exchange) (msgs : list bytes)
            (s : UdpProtocol.state) r (s' : UdpProtocol.state),
       UdpProtocol.manage_received_messages network msgs s = (Return r, s') ->
       exists l : list bytes, r = Some l /\ length l = length msgs).
Proof.
  intros H.
  destruct (H silent [request_0x10] (connected (device true)) _ _ eq_refl)
    as (l & Hl & _).
  discriminate Hl.
Qed.

(** C1, amended. A call that returns a non-empty list returns one element
    per request, in the order of the requests: the list comes from the last
    pass, and the element at the place of a request whose exchange had a
    reply is that reply (its first 256 bytes).  A call that returns
    anything else returns [None] or the empty list, and does so only when
    the transductor was already marked broken and [receive_attempts] has
    reached [max_receive_attempts], or when [max_receive_attempts] is
    negative. *)
Theorem manage_received_messages_responses
    (network : nat -> UdpProtocol.exchange) (msgs : list bytes)
    (s : UdpProtocol.state) (r : option (list bytes)) (s' : UdpProtocol.state) :
  UdpProtocol.manage_received_messages network msgs s = (Return r, s') ->
  (forall l : list bytes,
     r = Some l -> l <> [] ->
     length l = length msgs
     /\ forall (i : nat) d a,
          (i < length msgs)%nat ->
          network (UdpProtocol.exchanges (UdpProtocol.net s') - length msgs + i)%nat
          = UdpProtocol.recvfrom_returns d a ->
          l !! i = Some (take 256 d))
  /\ ((r = None \/ r = Some []) ->
      (broken (UdpProtocol.the_transductor (UdpProtocol.this s)) = true
       /\ UdpProtocol.receive_attempts (UdpProtocol.this s')
          = UdpProtocol.max_receive_attempts (UdpProtocol.this s'))
      \/ UdpProtocol.max_receive_attempts (UdpProtocol.this s) < 0).
Proof.
  intros Hcall. rewrite manage_received_messages_unfold in Hcall.
  destruct (UdpProtocol.retry_loop _ _ _ _ _) as [[rm|e] s1] eqn:Hloop;
    [|inversion Hcall].
  destruct (exhausted s1 && negb _) eqn:Hraise; inversion Hcall; subst rm s1.
  split.
  - intros l -> Hne.
    apply retry_loop_origin in Hloop as [[Heq _] | [s0 Hlast]];
      [inversion Heq; congruence | | now destruct l].
    apply handle_messages_loop_Some in Hlast
      as (Hex & tail & -> & Hlen & Hslot).
    cbn [app] in *. split; [exact Hlen|].
    intros i d a Hi Hnet. apply (Hslot i d a); [|exact Hi].
    rewrite <- Hnet. f_equal. lia.
  - intros Hempty.
    assert (UdpProtocol.not_ r = true) as Hnot
      by (destruct Hempty as [-> | ->]; reflexivity).
    pose proof (retry_loop_exit network _ msgs _ _ _ _ (Nat.le_refl _) Hloop)
      as Hexit.
    unfold guard in Hexit. rewrite Hnot in Hexit. cbn [andb] in Hexit.
    apply Z.ltb_ge in Hexit.
    pose proof (retry_loop_same_session network _ msgs _ _ _ _ Hloop)
      as [Hsame _].
    apply same_session_fields in Hsame as (Ht & Hm & _).
    assert (UdpProtocol.the_transductor (UdpProtocol.this (reset s))
            = UdpProtocol.the_transductor (UdpProtocol.this s)
            /\ UdpProtocol.max_receive_attempts (UdpProtocol.this (reset s))
               = UdpProtocol.max_receive_attempts (UdpProtocol.this s)
            /\ UdpProtocol.receive_attempts (UdpProtocol.this (reset s)) = 0)
      as (Ht0 & Hm0 & Ha0) by now destruct s as [[] ?].
    destruct (Z_lt_le_dec
                (UdpProtocol.max_receive_attempts (UdpProtocol.this s)) 0)
      as [Hneg | Hpos]; [now right | left].
    pose proof (retry_loop_attempts_le network _ msgs _ _ _ _ Hloop
                  ltac:(lia)) as Hle.
    assert (UdpProtocol.receive_attempts (UdpProtocol.this s')
            = UdpProtocol.max_receive_attempts (UdpProtocol.this s')) as Heq
      by lia.
    split; [|exact Heq].
    unfold exhausted in Hraise. rewrite Heq, Z.eqb_refl in Hraise.
    cbn [andb] in Hraise. rewrite Ht, Ht0 in Hraise.
    now destruct (broken _).
Qed.

Lemma manage_received_messages_responses_witness :
  length [reply_42] = length [request_0x10]
  /\ forall (i : nat) d a,
       (i < length [request_0x10])%nat ->
       answering (1 - length [request_0x10] + i)%nat
       = UdpProtocol.recvfrom_returns d a ->
       [reply_42] !! i = Some (take 256 d).
Proof.
  apply (proj1 (manage_received_messages_responses answering [request_0x10]
                  (connected (device false)) (Some [reply_42])
                  (UdpProtocol.State
                     (UdpProtocol.this (connected (device false)))
                     (UdpProtocol.Wire 1
                        [(request_0x10, ("10.0.0.2"%string, 1001))]))
                  eq_refl)
               [reply_42] eq_refl).
  discriminate.
Defined.

(** C8. When, in a pass, the exchange of request [k] is the first to time
    out (and the pass gets that far), the pass stops there: it returns
    [None], the requests after [k] are not sent, and the retry loop, if it
    goes on, runs its next pass over the whole batch again, starting with
    the first request. *)
Theorem handle_messages_via_socket_timeout
    (network : nat -> UdpProtocol.exchange) (msgs : list bytes)
    (s : UdpProtocol.state) (k : nat) :
  (k < length msgs)%nat ->
  timed_out (network (UdpProtocol.exchanges (UdpProtocol.net s) + k)%nat) = true ->
  (forall j : nat, (j < k)%nat ->
     timed_out (network (UdpProtocol.exchanges (UdpProtocol.net s) + j)%nat)
     = false) ->
  k = 0%nat
  \/ replied (network (UdpProtocol.exchanges (UdpProtocol.net s))) = true ->
  exists s' : UdpProtocol.state,
    UdpProtocol.handle_messages_via_socket network msgs s = (Return None, s')
    /\ UdpProtocol.this s' = UdpProtocol.this s
    /\ UdpProtocol.exchanges (UdpProtocol.net s')
       = (UdpProtocol.exchanges (UdpProtocol.net s) + S k)%nat
    /\ UdpProtocol.sent (UdpProtocol.net s')
       = UdpProtocol.sent (UdpProtocol.net s)
         ++ pass_sent network (UdpProtocol.exchanges (UdpProtocol.net s))
              (take (S k) msgs) (peer s)
    /\ (forall fuel rm,
          guard rm s = true ->
          UdpProtocol.retry_loop network (S fuel) msgs rm s
          = UdpProtocol.retry_loop network fuel msgs None (bump s'))
    /\ (forall r s2,
          UdpProtocol.handle_messages_via_socket network msgs (bump s') = (r, s2) ->
          exists n : nat,
            (0 < n <= length msgs)%nat
            /\ UdpProtocol.sent (UdpProtocol.net s2)
               = UdpProtocol.sent (UdpProtocol.net s')
                 ++ pass_sent network (UdpProtocol.exchanges (UdpProtocol.net s'))
                      (take n msgs) (peer s)).
Proof.
  intros Hk Hto Hbefore Hbound.
  destruct (handle_messages_loop_timeout network msgs k [] None s Hk Hto Hbefore
              (or_intror Hbound)) as (s' & Hrun & Hex).
  exists s'. split; [exact Hrun|].
  pose proof (handle_messages_loop_this network msgs _ _ _ _ _ Hrun) as Hthis.
  split; [exact Hthis|]. split; [exact Hex|]. split.
  - destruct (handle_messages_loop_wire network msgs _ _ _ _ _ Hrun)
      as (n & _ & _ & Hex' & Hsent).
    assert (n = S k) as -> by lia. exact Hsent.
  - split.
    + intros fuel rm Hg. rewrite retry_loop_step, Hg.
      unfold UdpProtocol.handle_messages_via_socket. now rewrite Hrun.
    + intros r s2 Hnext.
      destruct (handle_messages_loop_wire network msgs _ _ _ _ _ Hnext)
        as (n & Hn & Hpos & _ & Hsent).
      exists n. split.
      * split; [apply Hpos; destruct msgs; [cbn in Hk; lia | discriminate]
               | exact Hn].
      * rewrite Hsent. cbn [bump UdpProtocol.net]. do 2 f_equal.
        unfold peer. cbn [bump UdpProtocol.this]. rewrite Hthis.
        now destruct (UdpProtocol.this s).
Qed.

(** The second of two requests times out: only the two requests have left
    and the pass returns [None]. *)
Lemma handle_messages_via_socket_timeout_witness :
  exists s' : UdpProtocol.state,
    UdpProtocol.handle_messages_via_socket late_second
      [request_0x10; request_0x10; request_0x10] (fresh (device false))
    = (Return None, s')
    /\ UdpProtocol.exchanges (UdpProtocol.net s') = 2%nat
    /\ UdpProtocol.sent (UdpProtocol.net s')
       = [(request_0x10, ("10.0.0.2"%string, 1001));
          (request_0x10, ("10.0.0.2"%string, 1001))].
Proof.
  destruct (handle_messages_via_socket_timeout late_second
              [request_0x10; request_0x10; request_0x10]
              (fresh (device false)) 1) as (s' & Hrun & _ & Hex & Hsent & _).
  - cbn. lia.
  - reflexivity.
  - intros [|j] Hj; [reflexivity | lia].
  - right. reflexivity.
  - exists s'. split; [exact Hrun|]. split; [exact Hex | exact Hsent].
Defined.

(** ** Wrong register types *)

Section WrongType.

Import UdpProtocol.

Lemma start_communication_unfold network s :
  start_communication network s
  = match ModbusRTU.create_messages
            (register_addresses (model (the_transductor (this s)))) with
    | Return messages_to_send =>
        manage_received_messages network messages_to_send (with_socket s)
    | Raise e => (Raise e, with_socket s)
    end.
Proof.
  unfold start_communication, with_socket, create_socket, get, put, lift,
    mbind, M_bind, mret, M_ret.
  cbn [this net].
  destruct s as [o w]. cbn [this net]. destruct (socket o) eqn:Hs.
  - destruct (ModbusRTU.create_messages _); reflexivity.
  - cbn [this set_socket the_transductor].
    destruct (ModbusRTU.create_messages _); reflexivity.
Qed.

End WrongType.

(** C9. When one of the descriptors of the transductor has a type that is
    neither integer (0) nor float (1), [create_messages] raises
    [RegisterAddressException] and returns no list at all, and
    [start_communication], on a session that has a socket or whose timeout
    [settimeout] accepts, lets the exception through at once: apart from
    the socket being created, the session is as before; no datagram has
    left, no exchange took place and [receive_attempts] was not reset. *)
Theorem start_communication_wrong_register_type
    (network : nat -> UdpProtocol.exchange) (s : UdpProtocol.state) :
  let registers :=
    register_addresses (model (UdpProtocol.the_transductor (UdpProtocol.this s))) in
  Exists (fun r => ~ valid_type r) registers ->
  Forall valid_address registers ->
  ModbusRTU.create_messages registers
  = Raise (RegisterAddressException "Wrong register address type.")
  /\ (socket_obtainable s ->
      UdpProtocol.start_communication network s
      = (Raise (RegisterAddressException "Wrong register address type."),
         with_socket s)
      /\ UdpProtocol.net (with_socket s) = UdpProtocol.net s
      /\ UdpProtocol.receive_attempts (UdpProtocol.this (with_socket s))
         = UdpProtocol.receive_attempts (UdpProtocol.this s)).
Proof.
  intros registers Hex Hall.
  pose proof (create_messages_from_wrong_type registers Hex Hall []) as Hcm.
  split; [exact Hcm|]. intros _. split.
  - rewrite start_communication_unfold. fold registers.
    unfold ModbusRTU.create_messages. now rewrite Hcm.
  - unfold with_socket. destruct (UdpProtocol.socket _); split; reflexivity.
Qed.

Lemma start_communication_wrong_register_type_witness :
  ModbusRTU.create_messages [Register 0x10 0; Register 0x20 7; Register 0x30 1]
  = Raise (RegisterAddressException "Wrong register address type.")
  /\ UdpProtocol.start_communication answering (fresh mistyped)
     = (Raise (RegisterAddressException "Wrong register address type."),
        with_socket (fresh mistyped))
  /\ UdpProtocol.net (with_socket (fresh mistyped)) = UdpProtocol.Wire 0 []
  /\ UdpProtocol.receive_attempts (UdpProtocol.this (with_socket (fresh mistyped)))
     = 0.
Proof.
  destruct (start_communication_wrong_register_type answering (fresh mistyped))
    as [Hcodec Hcall].
  - apply Exists_cons_tl, Exists_cons_hd.
    unfold valid_type. cbn. intros [H | H]; discriminate H.
  - repeat constructor; cbn; lia.
  - split; [exact Hcodec|]. apply Hcall.
    right. unfold Qle. cbn. lia.
Defined.

(** C10. The claim is that a response appended by a pass was received in
    the same turn.  The code does otherwise when a [socket.error] that is
    not a timeout is swallowed: on the first request the pass then reads
    the unbound [message_received] and dies with [UnboundLocalError]; on a
    later request it appends the reply of the previous request again. *)
Theorem handle_messages_via_socket_stale_response :
  fst (UdpProtocol.handle_messages_via_socket failing_first
         [request_0x10] (fresh (device false)))
  = Raise UnboundLocalError
  /\ failing_second 1%nat = UdpProtocol.recvfrom_raises UdpProtocol.error
  /\ fst (UdpProtocol.handle_messages_via_socket failing_second
            [request_0x10; request_0x10; request_0x10] (fresh (device false)))
     = Return (Some [reply_42; reply_42; reply_7])
  /\ fst (UdpProtocol.manage_received_messages failing_second
            [request_0x10; request_0x10; request_0x10] (fresh (device false)))
     = Return (Some [reply_42; reply_42; reply_7]).
Proof.
  repeat split.
Qed.

(** * Further properties of the codec and of the transport *)

(** ** What the CRC detects *)

Section Detection.

Import ModbusRTU.

Lemma testbit_15_low (h : Z) : 0 <= h < 32768 -> Z.testbit h 15 = false.
Proof.
  intros Hh. destruct (Z.eq_dec h 0) as [-> | Hne]; [reflexivity|].
  apply Z.bits_above_log2; [lia|].
  apply Z.log2_lt_pow2; lia.
Qed.

Lemma crc_round_div (x : Z) :
  crc_round x = if x mod 2 =? 0 then x / 2 else Z.lxor (x / 2) 0xA001.
Proof.
  unfold crc_round.
  assert (Z.land x 1 = x mod 2) as ->
    by (change 1 with (Z.ones 1); now rewrite Z.land_ones by lia).
  rewrite Z.shiftr_div_pow2 by lia. reflexivity.
Qed.

Lemma crc_unround_round (x : Z) :
  0 <= x < 65536 -> crc_unround (crc_round x) = x.
Proof.
  intros Hx. rewrite crc_round_div. unfold crc_unround.
  pose proof (Z.div_mod x 2 ltac:(lia)) as Hdm.
  pose proof (Z.mod_pos_bound x 2 eq_refl) as Hb.
  assert (0 <= x / 2 < 32768) as Hh
    by (split; [apply Z.div_pos; lia | apply Z.div_lt_upper_bound; lia]).
  destruct (Z.eqb_spec (x mod 2) 0) as [H0 | H1].
  - rewrite testbit_15_low by exact Hh. cbv iota. lia.
  - rewrite Z.lxor_spec, testbit_15_low by exact Hh.
    change (xorb false (Z.testbit 40961 15)) with true. cbv iota.
    rewrite Z.lxor_assoc, Z.lxor_nilpotent, Z.lxor_0_r. lia.
Qed.

Lemma crc_round_inj (x y : Z) :
  0 <= x < 65536 -> 0 <= y < 65536 -> crc_round x = crc_round y -> x = y.
Proof.
  intros Hx Hy H.
  rewrite <- (crc_unround_round x Hx), <- (crc_unround_round y Hy).
  now rewrite H.
Qed.

Lemma crc_rounds_inj (k : nat) (x y : Z) :
  0 <= x < 65536 -> 0 <= y < 65536 ->
  Nat.iter k crc_round x = Nat.iter k crc_round y -> x = y.
Proof.
  intros Hx Hy. induction k as [|k IH]; [trivial|].
  cbn [Nat.iter nat_rect]. intros H. apply IH.
  apply crc_round_inj; [now apply crc_rounds_range.. | exact H].
Qed.

Lemma Z_of_byte_inj (a b : byte) : Z_of_byte a = Z_of_byte b -> a = b.
Proof.
  unfold Z_of_byte. intros H. apply N2Z.inj in H.
  pose proof (Byte.of_to_N a) as Ha. rewrite H, Byte.of_to_N in Ha.
  now inversion Ha.
Qed.

Lemma lxor_cancel_l (c a b : Z) : Z.lxor c a = Z.lxor c b -> a = b.
Proof.
  intros H.
  rewrite <- (Z.lxor_0_l a), <- (Z.lxor_0_l b), <- (Z.lxor_nilpotent c).
  now rewrite !Z.lxor_assoc, H.
Qed.

Lemma lxor_cancel_r (b c d : Z) : Z.lxor c b = Z.lxor d b -> c = d.
Proof.
  rewrite (Z.lxor_comm c), (Z.lxor_comm d). apply lxor_cancel_l.
Qed.

Lemma lxor_byte_range (c : Z) (b : byte) :
  0 <= c < 65536 -> 0 <= Z.lxor c (Z_of_byte b) < 65536.
Proof.
  intros Hc. pose proof (Z_of_byte_range b). apply (lxor_range 16); lia.
Qed.

Lemma crc_byte_inj_byte (c : Z) (a b : byte) :
  0 <= c < 65536 -> crc_byte c a = crc_byte c b -> a = b.
Proof.
  intros Hc H. unfold crc_byte in H.
  apply crc_rounds_inj in H; [|now apply lxor_byte_range..].
  now apply Z_of_byte_inj, (lxor_cancel_l c).
Qed.

Lemma crc_byte_inj_state (c d : Z) (b : byte) :
  0 <= c < 65536 -> 0 <= d < 65536 -> crc_byte c b = crc_byte d b -> c = d.
Proof.
  intros Hc Hd H. unfold crc_byte in H.
  apply crc_rounds_inj in H; [|now apply lxor_byte_range..].
  now apply (lxor_cancel_r (Z_of_byte b)).
Qed.

Lemma fold_crc_byte_inj (t : bytes) : forall c d : Z,
  0 <= c < 65536 -> 0 <= d < 65536 ->
  fold_left crc_byte t c = fold_left crc_byte t d -> c = d.
Proof.
  induction t as [|b t IH]; intros c d Hc Hd H; [exact H|].
  cbn [fold_left] in H.
  apply IH in H; [|now apply crc_byte_range..].
  now apply crc_byte_inj_state in H.
Qed.

End Detection.

(** X1. The CRC of every message is a 16-bit word, so packing it with
    [struct.pack("<H", crc)] never raises and gives two bytes that read
    back, low byte first, as the CRC. *)
Theorem _computate_crc_fits_16_bits (msg : bytes) :
  0 <= ModbusRTU._computate_crc msg <= 65535
  /\ exists lo hi : byte,
       pack_le_H (ModbusRTU._computate_crc msg) = Return [lo; hi]
       /\ Z_of_byte lo + 256 * Z_of_byte hi = ModbusRTU._computate_crc msg.
Proof.
  pose proof (_computate_crc_range msg) as Hc. split; [lia|].
  eexists _, _. split; [apply pack_le_H_crc|].
  rewrite !Z_of_byte_of_Z_small
    by (apply low_byte_range || now apply high_byte_range).
  change 255 with (Z.ones 8). rewrite Z.land_ones, Z.shiftr_div_pow2 by lia.
  change (2 ^ 8) with 256.
  pose proof (Z.div_mod (ModbusRTU._computate_crc msg) 256). lia.
Qed.

(** X2. Two messages that differ in exactly one byte, at the same place,
    never have the same CRC; hence a frame that passes [_check_crc] no
    longer passes it once one of its bytes, CRC bytes included, has been
    altered. *)
Theorem _computate_crc_detects_one_byte (p t : bytes) (a b : byte) :
  a <> b ->
  ModbusRTU._computate_crc (p ++ a :: t) <> ModbusRTU._computate_crc (p ++ b :: t)
  /\ (ModbusRTU._check_crc (p ++ a :: t) = true ->
      ModbusRTU._check_crc (p ++ b :: t) = false).
Proof.
  intros Hab.
  assert (ModbusRTU._computate_crc (p ++ a :: t)
          <> ModbusRTU._computate_crc (p ++ b :: t)) as Hne.
  { unfold ModbusRTU._computate_crc. rewrite !fold_left_app.
    cbn [fold_left]. intros H.
    pose proof (fold_crc_byte_range p 65535 ltac:(lia)) as Hp.
    apply fold_crc_byte_inj in H; [|now apply crc_byte_range..].
    apply crc_byte_inj_byte in H; [congruence | exact Hp]. }
  split; [exact Hne|].
  unfold ModbusRTU._check_crc. intros Ha. apply Z.eqb_eq in Ha.
  apply Z.eqb_neq. congruence.
Qed.

Lemma _computate_crc_detects_one_byte_witness :
  ModbusRTU._check_crc [x01; x03; x02; x00; x2a; x39; x9b] = true
  /\ ModbusRTU._check_crc [x01; x03; x02; x00; x2b; x39; x9b] = false.
Proof.
  split; [vm_compute; reflexivity|].
  apply (_computate_crc_detects_one_byte [x01; x03; x02; x00] [x39; x9b]
           x2a x2b).
  - discriminate.
  - vm_compute. reflexivity.
Defined.

(** ** Outcomes of the construction of requests *)

Section Construction.

Import ModbusRTU.

Lemma pack_be_2H_out_of_range (a b : Z) :
  ~ 0 <= a < 65536 -> pack_be_2H a b = Raise struct_error.
Proof.
  intros Ha. unfold pack_be_2H, in_range.
  destruct (Z.leb_spec 0 a), (Z.leb_spec a 65535); solve [reflexivity | lia].
Qed.

Lemma create_message_bad_address (r : register) :
  valid_type r -> ~ valid_address r -> create_message r = Raise struct_error.
Proof.
  intros Ht Ha. unfold create_message.
  destruct Ht as [Ht | Ht]; rewrite Ht.
  - rewrite (proj2 (Z.eqb_eq int_addr int_addr) eq_refl).
    now rewrite pack_be_2H_out_of_range.
  - replace (float_addr =? int_addr) with false by reflexivity.
    replace (float_addr =? float_addr) with true by reflexivity.
    now rewrite pack_be_2H_out_of_range.
Qed.

Lemma valid_type_dec (r : register) : {valid_type r} + {~ valid_type r}.
Proof.
  unfold valid_type.
  destruct (Z.eq_dec (address_type r) int_addr);
    [left; now left|].
  destruct (Z.eq_dec (address_type r) float_addr);
    [left; now right | right; tauto].
Qed.

Lemma valid_address_dec (r : register) : {valid_address r} + {~ valid_address r}.
Proof.
  unfold valid_address.
  destruct (Z_le_dec 0 (address_value r)); [|right; lia].
  destruct (Z_lt_dec (address_value r) 65536); [left; lia | right; lia].
Qed.

Lemma create_message_Return (r : register) (f : bytes) :
  create_message r = Return f ->
  valid_type r /\ valid_address r /\ f = request_frame r.
Proof.
  intros H.
  destruct (valid_type_dec r) as [Ht | Ht];
    [|rewrite create_message_wrong_type in H by exact Ht; discriminate H].
  destruct (valid_address_dec r) as [Ha | Ha];
    [|rewrite create_message_bad_address in H by assumption; discriminate H].
  rewrite create_message_valid in H by assumption.
  inversion H. auto.
Qed.

Lemma create_messages_from_Return (registers : list register) :
  forall messages_to_send frames,
    create_messages_from registers messages_to_send = Return frames ->
    Forall valid_type registers /\ Forall valid_address registers.
Proof.
  induction registers as [|r rs IH]; intros acc frames H.
  - split; constructor.
  - cbn [create_messages_from] in H.
    destruct (create_message r) as [f|e] eqn:Hr; [|discriminate H].
    apply create_message_Return in Hr as (Ht & Ha & _).
    rewrite bind_Return in H. apply IH in H as [Hts Has].
    split; constructor; assumption.
Qed.

(** After a run of valid descriptors the next one decides. *)
Lemma create_messages_from_app (good : list register) :
  Forall valid_type good -> Forall valid_address good ->
  forall rest messages_to_send,
    create_messages_from (good ++ rest) messages_to_send
    = create_messages_from rest (messages_to_send ++ map request_frame good).
Proof.
  induction good as [|r rs IH]; intros Ht Ha rest acc.
  - cbn. now rewrite app_nil_r.
  - inversion Ht; inversion Ha; subst. cbn [app create_messages_from map].
    rewrite create_message_valid by assumption. rewrite bind_Return.
    rewrite IH by assumption. now rewrite <- app_assoc.
Qed.

Lemma request_frame_inj (r1 r2 : register) :
  valid_type r1 -> valid_address r1 -> valid_type r2 -> valid_address r2 ->
  request_body r1 = request_body r2 -> r1 = r2.
Proof.
  intros Ht1 Ha1 Ht2 Ha2 H. unfold request_body in H.
  injection H as Hhi Hlo Hq.
  assert (address_value r1 = address_value r2) as Haddr.
  { rewrite <- (be_word_16 (address_value r1) Ha1),
            <- (be_word_16 (address_value r2) Ha2).
    now rewrite Hhi, Hlo. }
  assert (address_type r1 = address_type r2) as Htype.
  { unfold quantity in Hq.
    destruct Ht1 as [E1 | E1], Ht2 as [E2 | E2]; rewrite E1, E2 in *;
      solve [reflexivity | discriminate Hq]. }
  destruct r1, r2. cbn in *. congruence.
Qed.

End Construction.

(** X3. [create_messages] returns a list exactly when every descriptor has
    type 0 or 1 and an address within 0..65535.  Otherwise the first
    descriptor that is not so decides the exception: a type other than 0
    and 1 raises [RegisterAddressException], also when a later address is
    out of range; an address out of range, with a type 0 or 1, makes
    [struct.pack] raise [struct.error]. *)
Theorem create_messages_outcomes (good rest : list register) (r : register) :
  Forall valid_type good -> Forall valid_address good ->
  (forall frames,
     ModbusRTU.create_messages (good ++ r :: rest) = Return frames ->
     valid_type r /\ valid_address r
     /\ Forall valid_type rest /\ Forall valid_address rest)
  /\ (~ valid_type r ->
      ModbusRTU.create_messages (good ++ r :: rest)
      = Raise (RegisterAddressException "Wrong register address type."))
  /\ (valid_type r -> ~ valid_address r ->
      ModbusRTU.create_messages (good ++ r :: rest) = Raise struct_error).
Proof.
  intros Ht Ha. unfold ModbusRTU.create_messages.
  rewrite create_messages_from_app by assumption.
  cbn [ModbusRTU.create_messages_from]. split; [|split].
  - intros frames H.
    destruct (ModbusRTU.create_message r) as [f|e] eqn:Hr; [|discriminate H].
    apply create_message_Return in Hr as (Htr & Har & _).
    rewrite bind_Return in H.
    apply create_messages_from_Return in H as [Hts Has]. auto.
  - intros Hbad. now rewrite create_message_wrong_type.
  - intros Hgood Hbad. now rewrite create_message_bad_address.
Qed.

Lemma create_messages_outcomes_witness :
  ModbusRTU.create_messages [Register 0x10 0; Register 70000 1; Register 0x30 7]
  = Raise struct_error.
Proof.
  apply (create_messages_outcomes [Register 0x10 0] [Register 0x30 7]
           (Register 70000 1)).
  - constructor; [now left | constructor].
  - constructor; [unfold valid_address; cbn; lia | constructor].
  - now right.
  - unfold valid_address. cbn. lia.
Defined.

(** X4. A request frame identifies its descriptor: two descriptors for
    which [create_messages] builds the same frame are equal, so the frames
    of distinct descriptors are distinct and the address and the type can
    be read back from the frame. *)
Theorem create_messages_frame_identifies_register (r1 r2 : register)
    (frame : bytes) :
  ModbusRTU.create_messages [r1] = Return [frame] ->
  ModbusRTU.create_messages [r2] = Return [frame] ->
  r1 = r2
  /\ be_word (take 2 (drop 2 frame)) = address_value r1
  /\ be_word (take 2 (drop 4 frame)) - 1 = address_type r1.
Proof.
  unfold ModbusRTU.create_messages. cbn [ModbusRTU.create_messages_from].
  intros H1 H2.
  destruct (ModbusRTU.create_message r1) as [f1|] eqn:E1; [|discriminate H1].
  destruct (ModbusRTU.create_message r2) as [f2|] eqn:E2; [|discriminate H2].
  rewrite bind_Return in H1, H2. cbn in H1, H2.
  apply create_message_Return in E1 as (Ht1 & Ha1 & ->).
  apply create_message_Return in E2 as (Ht2 & Ha2 & ->).
  assert (frame = request_frame r1) as -> by congruence.
  assert (request_frame r1 = request_frame r2) as Heq by congruence.
  split.
  - apply request_frame_inj; try assumption.
    unfold request_frame in Heq.
    apply app_inj_1 in Heq as [Hb _]; [exact Hb | reflexivity].
  - unfold request_frame, request_body. cbn [app take drop]. split.
    + now apply be_word_16.
    + unfold quantity.
      destruct Ht1 as [-> | ->]; reflexivity.
Qed.

Lemma create_messages_frame_identifies_register_witness :
  Register 0x10 0 = Register 0x10 0
  /\ be_word (take 2 (drop 2 request_0x10)) = 0x10
  /\ be_word (take 2 (drop 4 request_0x10)) - 1 = 0.
Proof.
  apply (create_messages_frame_identifies_register
           (Register 0x10 0) (Register 0x10 0) request_0x10);
    vm_compute; reflexivity.
Defined.

(** ** Decoding of frames of any shape *)

Section Decoding.

Import ModbusRTU.

Lemma for_in_invariant {A S : Type} (P : S -> Prop)
    (body : A -> S -> result S) (xs : list A) : forall s s',
  (forall x s s', P s -> body x s = Return s' -> P s') ->
  P s -> for_in xs body s = Return s' -> P s'.
Proof.
  induction xs as [|x xs IH]; intros s s' Hbody Hs H; cbn [for_in] in H.
  - now inversion H; subst.
  - destruct (body x s) as [s1|e] eqn:Hx; [|discriminate H].
    rewrite bind_Return in H.
    apply (IH s1 s' Hbody); [exact (Hbody x s s1 Hs Hx) | exact H].
Qed.

Lemma for_in_Return_id {A S : Type} (xs : list A) (s : S) :
  for_in xs (fun _ s => Return s) s = Return s.
Proof. induction xs as [|x xs IH]; [reflexivity | exact IH]. Qed.

Lemma setitem_length {A : Type} (l l' : list A) (i : Z) (x : A) :
  setitem l i x = Return l' -> length l' = length l.
Proof.
  unfold setitem. destruct (index _ i); [|discriminate].
  intros H. inversion H. apply length_insert.
Qed.

Lemma getitem_short {A : Type} (l : list A) :
  (length l < 3)%nat -> getitem l 2 = Raise IndexError.
Proof.
  intros Hl. unfold getitem, index. cbn [Z.ltb Z.compare].
  destruct (Z.ltb_spec 2 (Z.of_nat (length l))); [lia|].
  now rewrite andb_false_r.
Qed.

Lemma getitem_Return_length {A : Type} (l : list A) (x : A) :
  getitem l 2 = Return x -> (3 <= length l)%nat.
Proof.
  intros H. destruct (Nat.lt_ge_cases (length l) 3) as [Hlt | Hge];
    [|exact Hge].
  rewrite getitem_short in H by exact Hlt. discriminate H.
Qed.

Lemma slice_data_length {A : Type} (l : list A) :
  length (slice l 3 (-2)) = Z.to_nat (Z.of_nat (length l) - 5).
Proof.
  unfold slice. cbn [Z.ltb Z.compare].
  rewrite length_take, length_drop. lia.
Qed.

(** The turn of the loop of the two decoders. *)
Lemma swap_turn_length (msg msg' : bytes) (i j : Z) :
  (msb ← getitem msg i; v ← getitem msg j;
   msg ← setitem msg i v; setitem msg j msb) = Return msg' ->
  length msg' = length msg.
Proof.
  destruct (getitem msg i) as [msb|] eqn:H1; [|discriminate].
  rewrite bind_Return.
  destruct (getitem msg j) as [v|] eqn:H2; [|discriminate].
  rewrite bind_Return.
  destruct (setitem msg i v) as [m1|] eqn:H3; [|discriminate].
  rewrite bind_Return. intros H4.
  apply setitem_length in H3, H4. congruence.
Qed.

Lemma native_word_2_range (o : byteorder) (msg : bytes) :
  length msg = 2%nat -> 0 <= native_word o msg < 65536.
Proof.
  destruct msg as [|a [|b [|c msg]]]; try discriminate. intros _.
  pose proof (Z_of_byte_range a). pose proof (Z_of_byte_range b).
  destruct o; cbn [native_word le_word be_word fold_left fold_right]; lia.
Qed.

Lemma native_word_4_range (o : byteorder) (msg : bytes) :
  length msg = 4%nat -> 0 <= native_word o msg < 4294967296.
Proof.
  destruct msg as [|a [|b [|c [|d [|e msg]]]]]; try discriminate. intros _.
  pose proof (Z_of_byte_range a). pose proof (Z_of_byte_range b).
  pose proof (Z_of_byte_range c). pose proof (Z_of_byte_range d).
  destruct o; cbn [native_word le_word be_word fold_left fold_right]; lia.
Qed.

Lemma lor_range (n a b : Z) :
  0 <= n -> 0 <= a < 2 ^ n -> 0 <= b < 2 ^ n -> 0 <= Z.lor a b < 2 ^ n.
Proof.
  intros Hn Ha Hb.
  assert (Z.lor a b = Z.land (Z.lor a b) (Z.ones n)) as ->.
  { rewrite Z.land_lor_distr_l, !Z.land_ones by assumption.
    now rewrite !Z.mod_small by assumption. }
  rewrite Z.land_ones by assumption.
  apply Z.mod_pos_bound. apply Z.pow_pos_nonneg; lia.
Qed.

(** Quieting a NaN stays within 32 bits, and only touches a NaN. *)
Lemma quiet_nan_range (w : Z) :
  0 <= w < 4294967296 -> 0 <= quiet_nan w < 4294967296.
Proof.
  intros Hw. unfold quiet_nan. destruct (_ && _); [|exact Hw].
  apply (lor_range 32); lia.
Qed.

(** The indices of the loops, by the byte count. *)
Lemma range_one (k step : Z) :
  0 < k <= step -> range 0 k step = [0].
Proof.
  intros Hk. unfold range.
  assert ((k - 0 + step - 1) / step = 1) as ->
    by (symmetry; apply (Z.div_unique _ _ 1 (k - 1)); lia).
  change (Z.to_nat 1) with 1%nat. cbn [seq map Z.of_nat]. f_equal. lia.
Qed.

Lemma range_more (k step : Z) :
  0 < step < k -> exists rest, range 0 k step = 0 :: step :: rest.
Proof.
  intros Hk. unfold range.
  assert (2 <= (k - 0 + step - 1) / step) as Hq
    by (apply Z.div_le_lower_bound; lia).
  destruct (Z.to_nat ((k - 0 + step - 1) / step)) as [|[|m]] eqn:Hn; try lia.
  cbn [seq map]. eexists. f_equal; [lia|]. f_equal. lia.
Qed.

(** The decoders on a frame with two, respectively four, data bytes. *)
Lemma get_int_value_from_response_7 (o : byteorder)
    (u f n d0 d1 c_lo c_hi : byte) :
  get_int_value_from_response o [u; f; n; d0; d1; c_lo; c_hi]
  = (msg ← for_in (range 0 (Z_of_byte n) 2) (fun i msg =>
       match o with
       | little =>
           msb ← getitem msg i;
           v ← getitem msg (i + 1);
           msg ← setitem msg i v;
           setitem msg (i + 1) msb
       | big => Return msg
       end) [d0; d1];
     unpack_1h o msg).
Proof. reflexivity. Qed.

Lemma get_float_value_from_response_9 (o : byteorder)
    (u f n b0 b1 b2 b3 c_lo c_hi : byte) :
  get_float_value_from_response o [u; f; n; b0; b1; b2; b3; c_lo; c_hi]
  = (msg ← for_in (range 0 (Z_of_byte n) 4) (fun i msg =>
       match o with
       | little =>
           msb ← getitem msg i;
           v ← getitem msg (i + 1);
           msg ← setitem msg i v;
           msg ← setitem msg (i + 1) msb;
           msb ← getitem msg (i + 2);
           v ← getitem msg (i + 3);
           msg ← setitem msg (i + 2) v;
           setitem msg (i + 3) msb
       | big =>
           msb ← getitem msg i;
           lsb ← getitem msg (i + 1);
           v ← getitem msg (i + 2);
           msg ← setitem msg i v;
           v ← getitem msg (i + 3);
           msg ← setitem msg (i + 1) v;
           msg ← setitem msg (i + 2) msb;
           setitem msg (i + 3) lsb
       end) [b0; b1; b2; b3];
     unpack_1f o msg).
Proof. reflexivity. Qed.

End Decoding.

(** Running a turn of a loop that returned: every step returned. *)
Ltac run_turn H :=
  repeat match type of H with
         | (?m ≫= _) = Return _ =>
             let E := fresh "E" in
             destruct m eqn:E;
             [rewrite bind_Return in H; cbv beta in H | discriminate H]
         end.

Ltac setitem_lengths :=
  repeat match goal with
         | E : setitem _ _ _ = Return _ |- _ => apply setitem_length in E
         end.

(** X5. [get_int_value_from_response] raises [IndexError] on a frame of
    fewer than three bytes, and whenever it returns a value the frame has
    exactly seven bytes (two of data) and the value is a signed 16-bit
    integer. *)
Theorem get_int_value_from_response_shape (o : byteorder) (frame : bytes) :
  ((length frame < 3)%nat ->
   ModbusRTU.get_int_value_from_response o frame = Raise IndexError)
  /\ (forall v : Z,
        ModbusRTU.get_int_value_from_response o frame = Return v ->
        length frame = 7%nat /\ -32768 <= v <= 32767).
Proof.
  unfold ModbusRTU.get_int_value_from_response. split.
  - intros Hl. now rewrite getitem_short.
  - intros v H.
    destruct (getitem frame 2) as [c|] eqn:Hc; [|discriminate H].
    rewrite bind_Return in H.
    change (unpack_1B [c]) with (Return (Z_of_byte c)) in H.
    rewrite bind_Return in H. cbv zeta in H.
    destruct (for_in _ _ _) as [msg|] eqn:Hloop; [|discriminate H].
    rewrite bind_Return in H. unfold unpack_1h in H.
    destruct (Nat.eqb_spec (length msg) 2) as [Hm | Hm]; [|discriminate H].
    assert (length msg = length (slice frame 3 (-2))) as Hlen.
    { apply (for_in_invariant
               (fun m : bytes => length m = length (slice frame 3 (-2)))
               _ _ _ _) in Hloop; [exact Hloop | | reflexivity].
      intros i m m' Hm0 Hturn. destruct o.
      - apply swap_turn_length in Hturn. congruence.
      - inversion Hturn; subst. exact Hm0. }
    rewrite slice_data_length, Hm in Hlen. split; [lia|].
    inversion H. pose proof (native_word_2_range o msg Hm).
    unfold signed16. destruct (Z.ltb_spec (native_word o msg) 32768); lia.
Qed.

Lemma get_int_value_from_response_shape_witness :
  ModbusRTU.get_int_value_from_response little [x01; x03] = Raise IndexError
  /\ length reply_42 = 7%nat /\ -32768 <= 42 <= 32767.
Proof.
  split.
  - apply (get_int_value_from_response_shape little [x01; x03]). cbn. lia.
  - apply (get_int_value_from_response_shape little reply_42). reflexivity.
Defined.

(** X6. On a frame with two data bytes [d0 d1], a big-endian host ignores
    the byte count and reads [d0 d1] as a big-endian signed word.  A
    little-endian host reads the same word only when the byte count is 1 or
    2; with a byte count of 0 it does not swap and reads the bytes in the
    reverse order, and with a byte count of 3 or more the swap loop runs
    past the data and raises [IndexError]. *)
Theorem get_int_value_from_response_byte_count
    (u f n d0 d1 c_lo c_hi : byte) :
  ModbusRTU.get_int_value_from_response big [u; f; n; d0; d1; c_lo; c_hi]
  = Return (signed16 (be_word [d0; d1]))
  /\ (1 <= Z_of_byte n <= 2 ->
      ModbusRTU.get_int_value_from_response little [u; f; n; d0; d1; c_lo; c_hi]
      = Return (signed16 (be_word [d0; d1])))
  /\ (Z_of_byte n = 0 ->
      ModbusRTU.get_int_value_from_response little [u; f; n; d0; d1; c_lo; c_hi]
      = Return (signed16 (be_word [d1; d0])))
  /\ (3 <= Z_of_byte n ->
      ModbusRTU.get_int_value_from_response little [u; f; n; d0; d1; c_lo; c_hi]
      = Raise IndexError).
Proof.
  rewrite !get_int_value_from_response_7. split; [|split; [|split]].
  - rewrite for_in_Return_id. reflexivity.
  - intros Hn. rewrite range_one by lia.
    transitivity (unpack_1h little [d1; d0]); [reflexivity|].
    unfold unpack_1h, native_word.
    cbn [length Nat.eqb le_word be_word fold_right fold_left].
    do 2 f_equal. lia.
  - intros Hn. rewrite Hn.
    transitivity (unpack_1h little [d0; d1]); [reflexivity|].
    unfold unpack_1h, native_word.
    cbn [length Nat.eqb le_word be_word fold_right fold_left].
    do 2 f_equal. lia.
  - intros Hn. destruct (range_more (Z_of_byte n) 2 ltac:(lia)) as [rest ->].
    reflexivity.
Qed.

Lemma get_int_value_from_response_byte_count_witness :
  ModbusRTU.get_int_value_from_response little
    [x01; x03; x04; x00; x2a; x39; x9b] = Raise IndexError.
Proof.
  apply (get_int_value_from_response_byte_count x01 x03 x04 x00 x2a x39 x9b).
  vm_compute. discriminate.
Defined.

(** X7. [get_float_value_from_response] raises [IndexError] on a frame of
    fewer than three bytes, and whenever it returns a value the frame has
    exactly nine bytes (four of data) and the value is a 32-bit pattern. *)
Theorem get_float_value_from_response_shape (o : byteorder) (frame : bytes) :
  ((length frame < 3)%nat ->
   ModbusRTU.get_float_value_from_response o frame = Raise IndexError)
  /\ (forall v : float32,
        ModbusRTU.get_float_value_from_response o frame = Return v ->
        length frame = 9%nat /\ 0 <= float32_bits v < 2 ^ 32).
Proof.
  unfold ModbusRTU.get_float_value_from_response. split.
  - intros Hl. now rewrite getitem_short.
  - intros v H.
    destruct (getitem frame 2) as [c|] eqn:Hc; [|discriminate H].
    rewrite bind_Return in H.
    change (unpack_1B [c]) with (Return (Z_of_byte c)) in H.
    rewrite bind_Return in H. cbv zeta in H.
    destruct (for_in _ _ _) as [msg|] eqn:Hloop; [|discriminate H].
    rewrite bind_Return in H. unfold unpack_1f in H.
    destruct (Nat.eqb_spec (length msg) 4) as [Hm | Hm]; [|discriminate H].
    assert (length msg = length (slice frame 3 (-2))) as Hlen.
    { apply (for_in_invariant
               (fun m : bytes => length m = length (slice frame 3 (-2)))
               _ _ _ _) in Hloop; [exact Hloop | | reflexivity].
      intros i m m' Hm0 Hturn.
      destruct o; run_turn Hturn; setitem_lengths; congruence. }
    rewrite slice_data_length, Hm in Hlen. split; [lia|].
    inversion H. cbn [float32_bits].
    now apply quiet_nan_range, native_word_4_range.
Qed.

Lemma get_float_value_from_response_shape_witness :
  ModbusRTU.get_float_value_from_response big [x01; x03] = Raise IndexError
  /\ length [x01; x03; x04; x00; x00; x40; x60; x00; x00] = 9%nat
  /\ 0 <= 0x40600000 < 2 ^ 32.
Proof.
  split.
  - apply (get_float_value_from_response_shape big [x01; x03]). cbn. lia.
  - apply (proj2 (get_float_value_from_response_shape big
                    [x01; x03; x04; x00; x00; x40; x60; x00; x00])
                 (Float32 0x40600000)).
    reflexivity.
Defined.

(** X8. On a frame with four data bytes [b0 b1 b2 b3] and a byte count
    from 1 to 4, both kinds of host read the same 32-bit pattern, with
    [b2 b3] as the high half and [b0 b1] as the low half; the value
    returned is that pattern, a NaN coming out quiet (bit 22 set), as
    always when a single is read into a Python float.  With a byte count
    of 0 nothing is reordered and the four bytes are read in the native
    order of the host; with a byte count of 5 or more the loop runs past
    the data and raises [IndexError]. *)
Theorem get_float_value_from_response_byte_count (o : byteorder)
    (u f n b0 b1 b2 b3 c_lo c_hi : byte) :
  (1 <= Z_of_byte n <= 4 ->
   ModbusRTU.get_float_value_from_response o
     [u; f; n; b0; b1; b2; b3; c_lo; c_hi]
   = Return (Float32 (quiet_nan (be_word [b2; b3; b0; b1])))
   /\ (Z.land (Z.shiftr (be_word [b2; b3; b0; b1]) 23) 255 <> 255 ->
       ModbusRTU.get_float_value_from_response o
         [u; f; n; b0; b1; b2; b3; c_lo; c_hi]
       = Return (Float32 (be_word [b2; b3; b0; b1]))))
  /\ (Z_of_byte n = 0 ->
      ModbusRTU.get_float_value_from_response o
        [u; f; n; b0; b1; b2; b3; c_lo; c_hi]
      = Return (Float32 (quiet_nan (native_word o [b0; b1; b2; b3]))))
  /\ (5 <= Z_of_byte n ->
      ModbusRTU.get_float_value_from_response o
        [u; f; n; b0; b1; b2; b3; c_lo; c_hi]
      = Raise IndexError).
Proof.
  rewrite !get_float_value_from_response_9. split; [|split].
  - intros Hn. rewrite range_one by lia.
    assert ((msg ← for_in [0] (fun i msg =>
               match o with
               | little =>
                   msb ← getitem msg i;
                   v ← getitem msg (i + 1);
                   msg ← setitem msg i v;
                   msg ← setitem msg (i + 1) msb;
                   msb ← getitem msg (i + 2);
                   v ← getitem msg (i + 3);
                   msg ← setitem msg (i + 2) v;
                   setitem msg (i + 3) msb
               | big =>
                   msb ← getitem msg i;
                   lsb ← getitem msg (i + 1);
                   v ← getitem msg (i + 2);
                   msg ← setitem msg i v;
                   v ← getitem msg (i + 3);
                   msg ← setitem msg (i + 1) v;
                   msg ← setitem msg (i + 2) msb;
                   setitem msg (i + 3) lsb
               end) [b0; b1; b2; b3];
             unpack_1f o msg)
            = Return (Float32 (quiet_nan (be_word [b2; b3; b0; b1]))))
      as Hrun.
    { destruct o.
      - transitivity (unpack_1f little [b1; b0; b3; b2]); [reflexivity|].
        unfold unpack_1f, native_word.
        cbn [length Nat.eqb le_word be_word fold_right fold_left].
        do 3 f_equal. lia.
      - reflexivity. }
    split; [exact Hrun|].
    intros Hexp. rewrite Hrun. unfold quiet_nan.
    destruct (Z.eqb_spec
                (Z.land (Z.shiftr (be_word [b2; b3; b0; b1]) 23) 255) 255);
      [contradiction | reflexivity].
  - intros Hn. rewrite Hn. destruct o; reflexivity.
  - intros Hn. destruct (range_more (Z_of_byte n) 4 ltac:(lia)) as [rest ->].
    destruct o; reflexivity.
Qed.

Lemma get_float_value_from_response_byte_count_witness :
  ModbusRTU.get_float_value_from_response little
    [x01; x03; x02; x00; x00; x40; x60; x00; x00]
  = Return (Float32 0x40600000).
Proof.
  apply (get_float_value_from_response_byte_count little
           x01 x03 x02 x00 x00 x40 x60 x00 x00).
  - vm_compute. split; discriminate.
  - vm_compute. discriminate.
Defined.

(** ** What a call does to the session and to the wire *)

Section Calls.

Import UdpProtocol.

Variable network : nat -> exchange.

Lemma same_session_all (o o' : self) :
  same_session o o' ->
  the_transductor o' = the_transductor o
  /\ timeout_ o' = timeout_ o
  /\ port o' = port o
  /\ socket o' = socket o
  /\ max_receive_attempts o' = max_receive_attempts o.
Proof.
  destruct o, o'. unfold same_session, set_receive_attempts. cbn.
  intros H. now inversion H.
Qed.

Lemma same_session_peer (s s' : state) :
  same_session (this s) (this s') -> peer s' = peer s.
Proof.
  intros H. apply same_session_all in H as (Ht & _ & Hp & _).
  unfold peer. now rewrite Ht, Hp.
Qed.

(** What [pass_sent] lists are requests of the pass, to the given peer. *)
Lemma pass_sent_requests (msgs : list bytes) (address : sockaddr) : forall n,
  Forall (fun d => fst d ∈ msgs /\ snd d = address)
         (pass_sent network n msgs address)
  /\ (length (pass_sent network n msgs address) <= length msgs)%nat.
Proof.
  induction msgs as [|m rest IH]; intros n; cbn [pass_sent].
  - split; [apply List.Forall_nil | cbn; lia].
  - destruct (IH (S n)) as [Hall Hlen]. split.
    + apply Forall_app. split.
      * destruct (network n);
          [apply List.Forall_nil
          | apply List.Forall_cons; [split; [now left | reflexivity]
                                    | apply List.Forall_nil] ..].
      * eapply Forall_impl; [exact Hall|].
        intros d [Hin Ha]. split; [now right | exact Ha].
    + rewrite length_app. cbn [length].
      destruct (network n); cbn [length]; lia.
Qed.

Lemma pass_sent_take (msgs : list bytes) (start n : nat) (address : sockaddr) :
  Forall (fun d => fst d ∈ msgs /\ snd d = address)
         (pass_sent network start (take n msgs) address)
  /\ (length (pass_sent network start (take n msgs) address) <= n)%nat.
Proof.
  destruct (pass_sent_requests (take n msgs) address start) as [Hall Hlen].
  split.
  - eapply Forall_impl; [exact Hall|].
    intros d [Hin Ha]. split; [|exact Ha].
    apply list_elem_of_lookup in Hin as [i Hi].
    apply lookup_take_Some in Hi as [Hi _].
    eapply list_elem_of_lookup_2, Hi.
  - rewrite length_take in Hlen. lia.
Qed.

(** What a pass adds to the wire. *)
Lemma handle_messages_via_socket_traffic msgs s r s' :
  handle_messages_via_socket network msgs s = (r, s') ->
  exists (n : nat) (extra : list (bytes * sockaddr)),
    (n <= length msgs)%nat
    /\ exchanges (net s') = (exchanges (net s) + n)%nat
    /\ sent (net s') = sent (net s) ++ extra
    /\ (length extra <= n)%nat
    /\ Forall (fun d => fst d ∈ msgs /\ snd d = peer s) extra.
Proof.
  intros H.
  destruct (handle_messages_loop_wire network msgs _ _ _ _ _ H)
    as (n & Hn & _ & Hex & Hsent).
  destruct (pass_sent_take msgs (exchanges (net s)) n (peer s)) as [Hall Hlen].
  exists n, (pass_sent network (exchanges (net s)) (take n msgs) (peer s)).
  auto.
Qed.

(** What the whole loop adds to the wire: at most one pass for each
    attempt that is left. *)
Lemma retry_loop_traffic fuel msgs : forall rm s r s',
  retry_loop network fuel msgs rm s = (r, s') ->
  exists extra : list (bytes * sockaddr),
    (exchanges (net s') <= exchanges (net s) + turns (this s) * length msgs)%nat
    /\ sent (net s') = sent (net s) ++ extra
    /\ (length extra <= exchanges (net s') - exchanges (net s))%nat
    /\ (exchanges (net s) <= exchanges (net s'))%nat
    /\ Forall (fun d => fst d ∈ msgs /\ snd d = peer s) extra.
Proof.
  assert (forall s : state, exists extra : list (bytes * sockaddr),
            (exchanges (net s)
             <= exchanges (net s) + turns (this s) * length msgs)%nat
            /\ sent (net s) = sent (net s) ++ extra
            /\ (length extra <= exchanges (net s) - exchanges (net s))%nat
            /\ (exchanges (net s) <= exchanges (net s))%nat
            /\ Forall (fun d => fst d ∈ msgs /\ snd d = peer s) extra) as Hstay.
  { intros s. exists []. rewrite app_nil_r. cbn [length].
    repeat split; try lia. apply List.Forall_nil. }
  induction fuel as [|fuel IH]; intros rm s r s' H.
  - cbn [retry_loop] in H. destruct (_ && _); inversion H; subst; apply Hstay.
  - rewrite retry_loop_step in H.
    destruct (guard rm s) eqn:Hg; [|inversion H; subst; apply Hstay].
    unfold guard in Hg. apply andb_prop in Hg as [_ Hlt].
    apply Z.ltb_lt in Hlt.
    destruct (handle_messages_via_socket network msgs s) as [[rm1|e] s1] eqn:Hp.
    + pose proof (handle_messages_via_socket_this network _ _ _ _ Hp) as Hthis.
      apply handle_messages_via_socket_traffic in Hp
        as (n & extra1 & Hn & Hex1 & Hsent1 & Hlen1 & Hall1).
      destruct (not_ rm1) eqn:Hn1.
      * apply IH in H as (extra2 & Hex2 & Hsent2 & Hlen2 & Hle2 & Hall2).
        cbn [bump net this] in Hex2, Hsent2, Hlen2, Hle2.
        assert (peer (bump s1) = peer s) as Hpeer.
        { unfold peer. cbn [bump this]. rewrite Hthis.
          now destruct (this s). }
        rewrite Hpeer in Hall2.
        assert (turns (set_receive_attempts (this s1)
                         (receive_attempts (this s1) + 1))
                = (turns (this s) - 1)%nat) as Hturns.
        { rewrite Hthis. unfold turns. destruct (this s). cbn in *. lia. }
        rewrite Hturns in Hex2.
        assert (1 <= turns (this s))%nat as Hpos by (unfold turns; lia).
        exists (extra1 ++ extra2). split; [nia|].
        split; [now rewrite Hsent2, Hsent1, app_assoc|].
        split; [rewrite length_app; lia|]. split; [lia|].
        apply Forall_app. now split.
      * rewrite retry_loop_done in H
          by (unfold guard; now rewrite Hn1).
        inversion H; subst r s'.
        assert (1 <= turns (this s))%nat as Hpos by (unfold turns; lia).
        exists extra1. split; [nia|]. split; [exact Hsent1|].
        split; [lia|]. split; [lia | exact Hall1].
    + inversion H; subst r s'.
      apply handle_messages_via_socket_traffic in Hp
        as (n & extra1 & Hn & Hex1 & Hsent1 & Hlen1 & Hall1).
      assert (1 <= turns (this s))%nat as Hpos by (unfold turns; lia).
      exists extra1. split; [nia|]. split; [exact Hsent1|].
      split; [lia|]. split; [lia | exact Hall1].
Qed.

(** The state of the loop at the start of a call. *)
Lemma reset_fields (s : state) :
  same_session (this s) (this (reset s))
  /\ receive_attempts (this (reset s)) = 0
  /\ net (reset s) = net s
  /\ peer (reset s) = peer s
  /\ turns (this (reset s)) = Z.to_nat (max_receive_attempts (this s)).
Proof.
  destruct s as [[] ?]. unfold same_session, turns, peer. cbn.
  repeat split. f_equal. lia.
Qed.

(** The state in which [manage_received_messages] ends is the one in
    which its loop ends. *)
Lemma manage_received_messages_state msgs s r s' :
  manage_received_messages network msgs s = (r, s') ->
  exists r0,
    retry_loop network (turns (this (reset s))) msgs (Some []) (reset s)
    = (r0, s').
Proof.
  rewrite manage_received_messages_unfold.
  destruct (retry_loop _ _ _ _ _) as [[rm|e] s1]; intros H.
  - destruct (_ && _); inversion H; subst; eauto.
  - inversion H; subst; eauto.
Qed.

End Calls.

(** X9. A call of [manage_received_messages] changes nothing of the
    session but [receive_attempts]: the transductor, and so its [broken]
    flag, the timeout, the port, the socket and [max_receive_attempts] are
    as before; and when [max_receive_attempts] is not negative,
    [receive_attempts] ends between 0 and [max_receive_attempts], whatever
    it was before the call and however the call ends. *)
Theorem manage_received_messages_session_kept
    (network : nat -> UdpProtocol.exchange) (msgs : list bytes)
    (s : UdpProtocol.state) r (s' : UdpProtocol.state) :
  UdpProtocol.manage_received_messages network msgs s = (r, s') ->
  (UdpProtocol.the_transductor (UdpProtocol.this s')
   = UdpProtocol.the_transductor (UdpProtocol.this s)
   /\ UdpProtocol.timeout_ (UdpProtocol.this s')
      = UdpProtocol.timeout_ (UdpProtocol.this s)
   /\ UdpProtocol.port (UdpProtocol.this s') = UdpProtocol.port (UdpProtocol.this s)
   /\ UdpProtocol.socket (UdpProtocol.this s')
      = UdpProtocol.socket (UdpProtocol.this s)
   /\ UdpProtocol.max_receive_attempts (UdpProtocol.this s')
      = UdpProtocol.max_receive_attempts (UdpProtocol.this s))
  /\ (0 <= UdpProtocol.max_receive_attempts (UdpProtocol.this s) ->
      0 <= UdpProtocol.receive_attempts (UdpProtocol.this s')
        <= UdpProtocol.max_receive_attempts (UdpProtocol.this s')).
Proof.
  intros H. apply manage_received_messages_state in H as [r0 Hloop].
  destruct (reset_fields s) as (Hsame0 & Hzero & _ & _ & _).
  pose proof (retry_loop_same_session network _ _ _ _ _ _ Hloop) as [Hsame Hge].
  apply same_session_all in Hsame0 as (Ht0 & Hto0 & Hp0 & Hs0 & Hm0).
  apply same_session_all in Hsame as (Ht & Hto & Hp & Hs & Hm).
  split; [repeat split; congruence|].
  intros Hmax. split; [lia|].
  apply (retry_loop_attempts_le network _ _ _ _ _ _ Hloop). lia.
Qed.

Lemma manage_received_messages_session_kept_witness :
  0 <= 3 <= 3.
Proof.
  apply (manage_received_messages_session_kept silent [request_0x10]
           (fresh (device true)) (Return None)
           (UdpProtocol.State
              (UdpProtocol.set_receive_attempts
                 (UdpProtocol.this (fresh (device true))) 3)
              (UdpProtocol.Wire 3
                 [(request_0x10, ("10.0.0.2"%string, 1001));
                  (request_0x10, ("10.0.0.2"%string, 1001));
                  (request_0x10, ("10.0.0.2"%string, 1001))]))).
  - reflexivity.
  - cbn. lia.
Defined.

(** X10. A call of [manage_received_messages] makes at most
    [max_receive_attempts] passes: the number of exchanges it adds is at
    most [max_receive_attempts] times the number of requests, and none
    when [max_receive_attempts] is 0 or less. *)
Theorem manage_received_messages_exchanges_bound
    (network : nat -> UdpProtocol.exchange) (msgs : list bytes)
    (s : UdpProtocol.state) r (s' : UdpProtocol.state) :
  UdpProtocol.manage_received_messages network msgs s = (r, s') ->
  (UdpProtocol.exchanges (UdpProtocol.net s)
   <= UdpProtocol.exchanges (UdpProtocol.net s')
   <= UdpProtocol.exchanges (UdpProtocol.net s)
      + Z.to_nat (UdpProtocol.max_receive_attempts (UdpProtocol.this s))
        * length msgs)%nat.
Proof.
  intros H. apply manage_received_messages_state in H as [r0 Hloop].
  destruct (reset_fields s) as (_ & _ & Hnet & _ & Hturns).
  apply retry_loop_traffic in Hloop as (extra & Hex & _ & _ & Hle & _).
  rewrite Hturns, Hnet in Hex. rewrite Hnet in Hle. lia.
Qed.

Lemma manage_received_messages_exchanges_bound_witness :
  (0 <= 3 <= 0 + Z.to_nat 3 * 1)%nat.
Proof.
  apply (manage_received_messages_exchanges_bound silent [request_0x10]
           (fresh (device true)) (Return None)
           (UdpProtocol.State
              (UdpProtocol.set_receive_attempts
                 (UdpProtocol.this (fresh (device true))) 3)
              (UdpProtocol.Wire 3
                 [(request_0x10, ("10.0.0.2"%string, 1001));
                  (request_0x10, ("10.0.0.2"%string, 1001));
                  (request_0x10, ("10.0.0.2"%string, 1001))]))).
  reflexivity.
Defined.

(** X11. A call of [manage_received_messages] only ever appends to the
    log of datagrams, and every datagram it sends is one of the requests it
    was given, sent to the address and port of the session; there is at
    most one datagram per exchange. *)
Theorem manage_received_messages_datagrams
    (network : nat -> UdpProtocol.exchange) (msgs : list bytes)
    (s : UdpProtocol.state) r (s' : UdpProtocol.state) :
  UdpProtocol.manage_received_messages network msgs s = (r, s') ->
  exists extra : list (bytes * UdpProtocol.sockaddr),
    UdpProtocol.sent (UdpProtocol.net s')
    = UdpProtocol.sent (UdpProtocol.net s) ++ extra
    /\ (length extra
        <= UdpProtocol.exchanges (UdpProtocol.net s')
           - UdpProtocol.exchanges (UdpProtocol.net s))%nat
    /\ Forall (fun d => fst d ∈ msgs /\ snd d = peer s) extra.
Proof.
  intros H. apply manage_received_messages_state in H as [r0 Hloop].
  destruct (reset_fields s) as (_ & _ & Hnet & Hpeer & _).
  apply retry_loop_traffic in Hloop as (extra & _ & Hsent & Hlen & _ & Hall).
  rewrite Hnet in Hsent, Hlen. rewrite Hpeer in Hall.
  exists extra. auto.
Qed.

Lemma manage_received_messages_datagrams_witness :
  exists extra : list (bytes * UdpProtocol.sockaddr),
    [(request_0x10, ("10.0.0.2"%string, 1001))] = [] ++ extra
    /\ (length extra <= 1 - 0)%nat
    /\ Forall (fun d => fst d ∈ [request_0x10]
                        /\ snd d = ("10.0.0.2"%string, 1001)) extra.
Proof.
  apply (manage_received_messages_datagrams answering [request_0x10]
           (fresh (device false)) (Return (Some [reply_42]))
           (UdpProtocol.State
              (UdpProtocol.__init__ (device false) (inject_Z 10) 1001)
              (UdpProtocol.Wire 1 [(request_0x10, ("10.0.0.2"%string, 1001))]))).
  reflexivity.
Defined.

(** ** Particular courses of a call *)

Section Courses.

Import UdpProtocol.

Variable network : nat -> exchange.

Lemma manage_received_messages_same_session msgs s r s' :
  manage_received_messages network msgs s = (r, s') ->
  same_session (this s) (this s').
Proof.
  intros H. apply manage_received_messages_state in H as [r0 Hloop].
  destruct (reset_fields s) as (Hsame0 & _).
  apply retry_loop_same_session in Hloop as [Hsame _].
  unfold same_session in *. congruence.
Qed.

(** With no request a pass returns the empty list, which counts as
    nothing received: the loop uses up its attempts. *)
Lemma retry_loop_nil fuel : forall s,
  (turns (this s) <= fuel)%nat ->
  receive_attempts (this s) <= max_receive_attempts (this s) ->
  retry_loop network fuel [] (Some []) s
  = (Return (Some []),
     State (set_receive_attempts (this s) (max_receive_attempts (this s)))
           (net s)).
Proof.
  induction fuel as [|fuel IH]; intros s Hfuel Hle.
  - assert (receive_attempts (this s) = max_receive_attempts (this s)) as Heq
      by (unfold turns in Hfuel; lia).
    rewrite retry_loop_done
      by (unfold guard; rewrite Heq, Z.ltb_irrefl; apply andb_false_r).
    destruct s as [[] ?]. cbn in *. now subst.
  - destruct (Z.eq_dec (receive_attempts (this s))
                       (max_receive_attempts (this s))) as [Heq | Hne].
    + rewrite retry_loop_done
        by (unfold guard; rewrite Heq, Z.ltb_irrefl; apply andb_false_r).
      destruct s as [[] ?]. cbn in *. now subst.
    + rewrite retry_loop_step.
      assert (guard (Some []) s = true) as ->
        by (unfold guard; cbn [not_ andb]; apply Z.ltb_lt; lia).
      change (handle_messages_via_socket network [] s)
        with (Return (Some (@nil bytes)), s).
      cbn [not_]. rewrite IH.
      * destruct s as [[] ?]. reflexivity.
      * unfold turns in *. destruct s as [[] ?]. cbn in *. lia.
      * destruct s as [[] ?]. cbn in *. lia.
Qed.

(** When every exchange times out, each pass ends at its first request
    and the loop uses up its attempts. *)
Lemma retry_loop_silent fuel msgs : forall rm s,
  msgs <> [] ->
  (forall n : nat, (exchanges (net s) <= n)%nat ->
     timed_out (network n) = true) ->
  not_ rm = true ->
  receive_attempts (this s) < max_receive_attempts (this s) ->
  (turns (this s) <= fuel)%nat ->
  exists s' : state,
    retry_loop network fuel msgs rm s = (Return None, s')
    /\ this s'
       = set_receive_attempts (this s) (max_receive_attempts (this s))
    /\ exchanges (net s') = (exchanges (net s) + turns (this s))%nat.
Proof.
  induction fuel as [|fuel IH]; intros rm s Hne Hall Hrm Hlt Hfuel.
  - unfold turns in Hfuel. lia.
  - rewrite retry_loop_step.
    assert (guard rm s = true) as ->
      by (unfold guard; rewrite Hrm; cbn [andb]; now apply Z.ltb_lt).
    destruct (handle_messages_loop_timeout network msgs 0 [] None s)
      as (s1 & Hrun & Hex1).
    { destruct msgs; [congruence | cbn; lia]. }
    { apply Hall. lia. }
    { intros j Hj. lia. }
    { right. now left. }
    pose proof (handle_messages_loop_this network _ _ _ _ _ _ Hrun) as Hthis.
    unfold handle_messages_via_socket. rewrite Hrun. cbn [not_].
    destruct (Z.eq_dec (receive_attempts (this s) + 1)
                       (max_receive_attempts (this s))) as [Hlast | Hmore].
    + rewrite retry_loop_done.
      * exists (bump s1). split; [reflexivity|]. cbn [bump this net].
        rewrite Hthis, Hex1. split.
        -- destruct (this s). cbn in *. now subst.
        -- unfold turns. lia.
      * unfold guard. cbn [not_ andb bump this]. rewrite Hthis.
        apply Z.ltb_ge. destruct (this s). cbn in *. lia.
    + destruct (IH None (bump s1)) as (s' & Hloop & Hthis' & Hex'); auto.
      * intros n Hn. apply Hall. cbn [bump net] in Hn. lia.
      * cbn [bump this]. rewrite Hthis. destruct (this s). cbn in *. lia.
      * cbn [bump this]. rewrite Hthis. unfold turns in *.
        destruct (this s). cbn in *. lia.
      * exists s'. split; [exact Hloop|]. split.
        -- rewrite Hthis'. cbn [bump this]. rewrite Hthis.
           now destruct (this s).
        -- rewrite Hex'. cbn [bump this net]. rewrite Hthis, Hex1.
           unfold turns. destruct (this s). cbn in *. lia.
Qed.



End Courses.

(** X12. For a transductor whose model has no register, a non-negative
    [max_receive_attempts] and a session that has a socket or whose
    timeout [settimeout] accepts, [start_communication] sends and
    receives nothing: each pass returns the empty list, which counts as
    nothing received, so the attempts are used up and the call raises
    [BrokenTransductorException] unless the transductor is already marked
    broken, in which case it returns the empty list. *)
Theorem start_communication_no_register
    (network : nat -> UdpProtocol.exchange) (s : UdpProtocol.state) :
  register_addresses (model (UdpProtocol.the_transductor (UdpProtocol.this s)))
  = [] ->
  0 <= UdpProtocol.max_receive_attempts (UdpProtocol.this s) ->
  socket_obtainable s ->
  UdpProtocol.start_communication network s
  = (if broken (UdpProtocol.the_transductor (UdpProtocol.this s))
     then Return (Some [])
     else Raise (BrokenTransductorException "Transductor is broken!"),
     UdpProtocol.State
       (UdpProtocol.set_receive_attempts
          (UdpProtocol.this (with_socket s))
          (UdpProtocol.max_receive_attempts (UdpProtocol.this s)))
       (UdpProtocol.net s)).
Proof.
  intros Hregs Hmax _. rewrite start_communication_unfold, Hregs.
  change (ModbusRTU.create_messages []) with (Return (@nil bytes)).
  cbv beta iota. rewrite manage_received_messages_unfold.
  assert (UdpProtocol.max_receive_attempts (UdpProtocol.this (with_socket s))
          = UdpProtocol.max_receive_attempts (UdpProtocol.this s)
          /\ UdpProtocol.the_transductor (UdpProtocol.this (with_socket s))
             = UdpProtocol.the_transductor (UdpProtocol.this s)
          /\ UdpProtocol.net (with_socket s) = UdpProtocol.net s)
    as (Hm & Ht & Hn).
  { unfold with_socket. destruct s as [[] ?]. cbn.
    destruct socket; repeat split. }
  rewrite retry_loop_nil.
  - unfold exhausted. cbn [UdpProtocol.this].
    destruct (with_socket s) as [[] ?]. cbn in *. subst.
    rewrite Z.eqb_refl. cbn [andb].
    destruct (broken _); reflexivity.
  - apply Nat.le_refl.
  - destruct (with_socket s) as [[] ?]. cbn in *. lia.
Qed.

Lemma start_communication_no_register_witness :
  UdpProtocol.start_communication answering
    (fresh (Transductor (TransductorModel []) "10.0.0.2" false))
  = (Raise (BrokenTransductorException "Transductor is broken!"),
     UdpProtocol.State
       (UdpProtocol.Self (Transductor (TransductorModel []) "10.0.0.2" false)
          (inject_Z 10) 1001
          (Some (UdpProtocol.Socket (Some (inject_Z 10)))) 3 3)
       (UdpProtocol.Wire 0 [])).
Proof.
  apply (start_communication_no_register answering
           (fresh (Transductor (TransductorModel []) "10.0.0.2" false))).
  - reflexivity.
  - cbn. lia.
  - right. unfold Qle. cbn. lia.
Defined.

(** X13. When every exchange times out, a call with at least one request
    and a positive [max_receive_attempts] makes exactly
    [max_receive_attempts] passes of one exchange each (each pass stops at
    its first request), leaves [receive_attempts] at the maximum and then
    raises [BrokenTransductorException], or returns [None] if the
    transductor is already marked broken. *)
Theorem manage_received_messages_all_timeouts
    (network : nat -> UdpProtocol.exchange) (msgs : list bytes)
    (s : UdpProtocol.state) :
  msgs <> [] ->
  0 < UdpProtocol.max_receive_attempts (UdpProtocol.this s) ->
  (forall n : nat, (UdpProtocol.exchanges (UdpProtocol.net s) <= n)%nat ->
     timed_out (network n) = true) ->
  exists s' : UdpProtocol.state,
    UdpProtocol.manage_received_messages network msgs s
    = (if broken (UdpProtocol.the_transductor (UdpProtocol.this s))
       then Return None
       else Raise (BrokenTransductorException "Transductor is broken!"),
       s')
    /\ UdpProtocol.receive_attempts (UdpProtocol.this s')
       = UdpProtocol.max_receive_attempts (UdpProtocol.this s)
    /\ UdpProtocol.exchanges (UdpProtocol.net s')
       = (UdpProtocol.exchanges (UdpProtocol.net s)
          + Z.to_nat (UdpProtocol.max_receive_attempts (UdpProtocol.this s)))%nat.
Proof.
  intros Hne Hmax Hall.
  destruct (reset_fields s) as (Hsame & Hzero & Hnet & _ & Hturns).
  apply same_session_all in Hsame as (Ht & _ & _ & _ & Hm).
  destruct (retry_loop_silent network
              (UdpProtocol.turns (UdpProtocol.this (reset s))) msgs
              (Some []) (reset s) Hne) as (s' & Hloop & Hthis & Hex).
  - intros n Hn. apply Hall. exact Hn.
  - reflexivity.
  - rewrite Hzero, Hm. exact Hmax.
  - apply Nat.le_refl.
  - exists s'. rewrite manage_received_messages_unfold, Hloop.
    unfold exhausted. rewrite Hthis, Hex, Hturns, Hnet.
    assert (UdpProtocol.the_transductor
              (UdpProtocol.set_receive_attempts (UdpProtocol.this (reset s))
                 (UdpProtocol.max_receive_attempts (UdpProtocol.this (reset s))))
            = UdpProtocol.the_transductor (UdpProtocol.this s)) as ->
      by (rewrite <- Ht; now destruct (UdpProtocol.this (reset s))).
    assert (forall o n,
              UdpProtocol.receive_attempts (UdpProtocol.set_receive_attempts o n)
              = n
              /\ UdpProtocol.max_receive_attempts
                   (UdpProtocol.set_receive_attempts o n)
                 = UdpProtocol.max_receive_attempts o) as Hset
      by (intros [] n; split; reflexivity).
    rewrite (proj1 (Hset _ _)), (proj2 (Hset _ _)), Z.eqb_refl, Hm.
    cbn [andb]. split; [|split; reflexivity].
    destruct (broken _); reflexivity.
Qed.

Lemma manage_received_messages_all_timeouts_witness :
  exists s' : UdpProtocol.state,
    UdpProtocol.manage_received_messages silent [request_0x10]
      (fresh (device true))
    = (Return None, s')
    /\ UdpProtocol.receive_attempts (UdpProtocol.this s') = 3
    /\ UdpProtocol.exchanges (UdpProtocol.net s') = (0 + Z.to_nat 3)%nat.
Proof.
  apply (manage_received_messages_all_timeouts silent [request_0x10]
           (fresh (device true))).
  - discriminate.
  - cbn. lia.
  - intros n _. reflexivity.
Defined.





(** X16. On a session that has a socket or whose timeout [settimeout]
    accepts, however [start_communication] ends, the session then has a
    socket: the one it had before the call, kept as it was, or, if it had
    none, a new one whose timeout is the timeout of the session.  The
    transductor (and so its [broken] flag), the timeout, the port and
    [max_receive_attempts] are those of before the call. *)
Theorem start_communication_socket
    (network : nat -> UdpProtocol.exchange) (s : UdpProtocol.state)
    r (s' : UdpProtocol.state) :
  socket_obtainable s ->
  UdpProtocol.start_communication network s = (r, s') ->
  UdpProtocol.socket (UdpProtocol.this s')
  = Some (match UdpProtocol.socket (UdpProtocol.this s) with
          | Some sock => sock
          | None =>
              UdpProtocol.Socket (Some (UdpProtocol.timeout_ (UdpProtocol.this s)))
          end)
  /\ UdpProtocol.the_transductor (UdpProtocol.this s')
     = UdpProtocol.the_transductor (UdpProtocol.this s)
  /\ UdpProtocol.timeout_ (UdpProtocol.this s')
     = UdpProtocol.timeout_ (UdpProtocol.this s)
  /\ UdpProtocol.port (UdpProtocol.this s') = UdpProtocol.port (UdpProtocol.this s)
  /\ UdpProtocol.max_receive_attempts (UdpProtocol.this s')
     = UdpProtocol.max_receive_attempts (UdpProtocol.this s).
Proof.
  intros _ H. rewrite start_communication_unfold in H.
  assert (same_session (UdpProtocol.this (with_socket s)) (UdpProtocol.this s'))
    as Hsame.
  { destruct (ModbusRTU.create_messages _).
    - now apply manage_received_messages_same_session in H.
    - inversion H. reflexivity. }
  apply same_session_all in Hsame as (Ht & Hto & Hp & Hs & Hm).
  rewrite Ht, Hto, Hp, Hs, Hm. unfold with_socket.
  destruct s as [[] ?]. cbn. destruct socket; repeat split.
Qed.

Lemma start_communication_socket_witness :
  Some (UdpProtocol.Socket (Some (inject_Z 10)))
  = Some (UdpProtocol.Socket (Some (inject_Z 10)))
  /\ device false = device false
  /\ inject_Z 10 = inject_Z 10
  /\ 1001 = 1001
  /\ 3 = 3.
Proof.
  apply (start_communication_socket answering (fresh (device false))
           (Return (Some [reply_42]))
           (UdpProtocol.State
              (UdpProtocol.Self (device false) (inject_Z 10) 1001
                 (Some (UdpProtocol.Socket (Some (inject_Z 10)))) 0 3)
              (UdpProtocol.Wire 1 [(request_0x10, ("10.0.0.2"%string, 1001))]))).
  - right. unfold Qle. cbn. lia.
  - reflexivity.
Defined.
